(** * warned_dataclasses: deferred conditional warnings for dataclass fields

    A shallow embedding of [src/warned_dataclasses/__init__.py].

    Python objects that the module shares between the field descriptors and
    the global registry (the [DeferredWarning] instances) live in an explicit
    object store and are referred to by address; the module-level dictionary
    [DEFERRED_WARNINGS], the records emitted through [logger.warning] and the
    lines written by [print] are the other components of the world.  Every
    function of the module is a computation in a state-and-exception monad:
    a Python exception leaves the mutations made so far in place. *)

From Stdlib Require Import Ascii.
From stdpp Require Import base option list strings relations.


(** ** Python values, exceptions, the world *)

(** Address of a [DeferredWarning] instance in the object store. *)
Abbreviation loc := nat.

(** The double-quote character, used by the message templates. *)
Definition dq : string := String "034"%char EmptyString.

(** The exceptions the module raises.  [KeyError] is what the specification
    calls [UnknownConditionError]; [ValueError] is its [PreconditionError]
    (in [DeferredWarning.invoke]) and its [ConfigError] (in [field]).
    [AttributeError] is raised by attribute access in the hook.
    [NativeError] stands for whatever the native [_process_class] raises.
    [InvalidReference] is not a Python exception: it is the outcome of
    following an address that the store does not hold, which no run of the
    module can do (see [wf]). *)
Inductive exn : Type :=
| KeyError (msg : string)
| ValueError (msg : string)
| AttributeError (msg : string)
| ConditionalParameterError (msg : string)
| NativeError (msg : string)
| InvalidReference (l : loc).

Inductive outcome (A : Type) : Type :=
| Return (a : A)
| Raise (e : exn).
Arguments Return {A} a.
Arguments Raise {A} e.

(** [class DeferredWarning]: the instance attributes set by [__init__]. *)
Record DeferredWarning : Type := mkDeferredWarning {
  condition : string;
  deferred_message : string -> string;
  satisfied : bool;
  error : bool;
  message : option string
}.

(** Assignments to the two attributes the methods mutate. *)
Definition set_satisfied (b : bool) (d : DeferredWarning) : DeferredWarning :=
  {| condition := condition d; deferred_message := deferred_message d;
     satisfied := b; error := error d; message := message d |}.

Definition set_message (m : option string) (d : DeferredWarning)
  : DeferredWarning :=
  {| condition := condition d; deferred_message := deferred_message d;
     satisfied := satisfied d; error := error d; message := m |}.

(** [DEFERRED_WARNINGS]: a [defaultdict(list)].  Python dictionaries keep
    their keys in insertion order, which [invoke_all] observes, so the
    dictionary is an association list with at most one entry per key. *)
Definition dict := list (string * list loc).

Record World : Type := mkWorld {
  heap : list DeferredWarning;
  DEFERRED_WARNINGS : dict;
  logged : list string;
  printed : list string
}.

(** The world right after the module is imported. *)
Definition initial_world : World :=
  {| heap := []; DEFERRED_WARNINGS := []; logged := []; printed := [] |}.

Definition set_heap (f : list DeferredWarning -> list DeferredWarning)
  (w : World) : World :=
  {| heap := f (heap w); DEFERRED_WARNINGS := DEFERRED_WARNINGS w;
     logged := logged w; printed := printed w |}.

Definition set_DEFERRED_WARNINGS (f : dict -> dict) (w : World) : World :=
  {| heap := heap w; DEFERRED_WARNINGS := f (DEFERRED_WARNINGS w);
     logged := logged w; printed := printed w |}.

Definition set_logged (f : list string -> list string) (w : World) : World :=
  {| heap := heap w; DEFERRED_WARNINGS := DEFERRED_WARNINGS w;
     logged := f (logged w); printed := printed w |}.

Definition set_printed (f : list string -> list string) (w : World) : World :=
  {| heap := heap w; DEFERRED_WARNINGS := DEFERRED_WARNINGS w;
     logged := logged w; printed := f (printed w) |}.

(** ** The monad of module-level code *)

Definition M (A : Type) : Type := World -> outcome A * World.

Definition ret {A} (a : A) : M A := fun w => (Return a, w).

Definition raise {A} (e : exn) : M A := fun w => (Raise e, w).

Definition bind {A B} (m : M A) (k : A -> M B) : M B :=
  fun w =>
    match m w with
    | (Return a, w') => k a w'
    | (Raise e, w') => (Raise e, w')
    end.

Notation "'let!' x ':=' c1 'in' c2" := (bind c1 (fun x => c2))
  (at level 10, x name, c1 at level 100, c2 at level 200).

Definition lift {A} (o : outcome A) : M A := fun w => (o, w).

(** [for x in xs: body(x)], for a sequence the body does not mutate. *)
Fixpoint for_each {A} (xs : list A) (body : A -> M unit) : M unit :=
  match xs with
  | [] => ret tt
  | x :: xs' => let! _ := body x in for_each xs' body
  end.

(** [logger.warning(msg)] and [print(msg)]: the external collaborators only
    record what they were given, oldest first. *)
Definition logger_warning (msg : string) : M unit :=
  fun w => (Return tt, set_logged (fun l => l ++ [msg]) w).

Definition print (msg : string) : M unit :=
  fun w => (Return tt, set_printed (fun l => l ++ [msg]) w).

(** ** Dictionary operations used on [DEFERRED_WARNINGS] *)

(** [d.get(k)] *)
Fixpoint dict_get (d : dict) (k : string) : option (list loc) :=
  match d with
  | [] => None
  | (k', v) :: d' => if decide (k' = k) then Some v else dict_get d' k
  end.

(** [k in d] *)
Definition dict_contains (d : dict) (k : string) : bool :=
  match dict_get d k with Some _ => true | None => false end.

(** [d[k]] on the [defaultdict(list)], for reading. *)
Definition dict_item (d : dict) (k : string) : list loc :=
  default [] (dict_get d k).

(** [d[k].append(l)]: a missing key is first bound to the empty list, at the
    end of the dictionary; an existing key keeps its position. *)
Fixpoint dict_append (d : dict) (k : string) (l : loc) : dict :=
  match d with
  | [] => [(k, [l])]
  | (k', v) :: d' =>
      if decide (k' = k) then (k', v ++ [l]) :: d'
      else (k', v) :: dict_append d' k l
  end.

(** [list(d)]: the keys, in insertion order. *)
Definition dict_keys (d : dict) : list string := d.*1.

(** ** Objects in the store *)

(** Reading the instance behind a reference. *)
Definition deref (self : loc) : M DeferredWarning :=
  fun w =>
    match heap w !! self with
    | Some d => (Return d, w)
    | None => (Raise (InvalidReference self), w)
    end.

(** Writing the instance behind a reference back. *)
Definition store (self : loc) (d : DeferredWarning) : M unit :=
  fun w => (Return tt, set_heap (fun h => <[self := d]> h) w).

(** Creating a new instance; its address is the next free one. *)
Definition alloc (d : DeferredWarning) : M loc :=
  fun w => (Return (length (heap w)), set_heap (fun h => h ++ [d]) w).

Module DeferredWarning.

(** [DeferredWarning(condition, deferred_message, error)] *)
Definition __init__ (condition : string)
  (deferred_message : string -> string) (error : bool) : M loc :=
  let! _ := print "initialized" in
  alloc {| condition := condition;
           deferred_message := deferred_message;
           satisfied := false;
           error := error;
           message := None |}.

(** [self.satisfied = True] *)
Definition satisfy (self : loc) : M unit :=
  let! d := deref self in
  store self (set_satisfied true d).

(** [self.message = self.deferred_message(param)] *)
Definition supply_parameter (self : loc) (param : string) : M unit :=
  let! d := deref self in
  store self (set_message (Some (deferred_message d param)) d).

Definition invoke (self : loc) : M unit :=
  let! d := deref self in
  if negb (satisfied d) then
    match message d with
    | None => raise (ValueError "didn't supply parameter!")
    | Some msg =>
        if error d then raise (ConditionalParameterError msg)
        else logger_warning msg
    end
  else ret tt.

End DeferredWarning.

(** ** Module-level functions on the registry *)

Definition satisfy_KeyError (key : string) : exn :=
  KeyError ("Condition " +:+ dq +:+ key +:+ dq +:+
            " has not been declared and could not be disarmed.").

Definition invoke_KeyError (key : string) : exn :=
  KeyError ("Condition " +:+ dq +:+ key +:+ dq +:+
            " has not been declared and could not be invoked").

Definition read_DEFERRED_WARNINGS : M dict :=
  fun w => (Return (DEFERRED_WARNINGS w), w).

Definition satisfy (key : string) : M unit :=
  let! d := read_DEFERRED_WARNINGS in
  if negb (dict_contains d key) then raise (satisfy_KeyError key)
  else for_each (dict_item d key) DeferredWarning.satisfy.

Definition invoke (key : string) : M unit :=
  let! d := read_DEFERRED_WARNINGS in
  if negb (dict_contains d key) then raise (invoke_KeyError key)
  else for_each (dict_item d key) DeferredWarning.invoke.

Definition invoke_all : M unit :=
  let! d := read_DEFERRED_WARNINGS in
  for_each (dict_keys d) invoke.

(** ** The drop-in replacements for [dataclasses] *)

Section Dataclasses.

(** Values the module only passes through: defaults, default factories and
    metadata mappings. *)
Variable PyObject : Type.

(** [class WarnedField(Field)], as [field] constructs it: the extra slot and
    the seven positional arguments [WarnedField.__init__] hands on to
    [Field.__init__], which stores them ([metadata], when given, is a
    mapping).  [None] stands for [MISSING] in [default] and
    [default_factory], and for Python's [None] in [_deferred_warning],
    [hash] and [metadata]. *)
Record WarnedField : Type := mkWarnedField {
  _deferred_warning : option loc;
  default : option PyObject;
  default_factory : option PyObject;
  init : bool;
  repr : bool;
  hash : option bool;
  compare : bool;
  metadata : option PyObject
}.

(** A field object of the finalized field table: a specification built by
    [field], with the authoritative name the native step gave it, or the
    plain [dataclasses.Field], without the [_deferred_warning] slot, that
    the native step makes of a class attribute not declared through
    [field]. *)
Inductive Field : Type :=
| NativeField (name : string)
| Warned (name : string) (f : WarnedField).

(** [field.name] *)
Definition name (field : Field) : string :=
  match field with
  | NativeField n => n
  | Warned n _ => n
  end.

(** What the loop variable of [_warned_process_class] can hold: a [str] or
    a field object. *)
Inductive object : Type :=
| Str (s : string)
| FieldObject (field : Field).

(** [field._deferred_warning] *)
Definition get_deferred_warning (field : object) : M (option loc) :=
  match field with
  | Str _ =>
      raise (AttributeError
               "'str' object has no attribute '_deferred_warning'")
  | FieldObject (NativeField _) =>
      raise (AttributeError
               "'Field' object has no attribute '_deferred_warning'")
  | FieldObject (Warned _ f) => ret (_deferred_warning f)
  end.

(** [field.name] *)
Definition get_name (field : object) : M string :=
  match field with
  | Str _ => raise (AttributeError "'str' object has no attribute 'name'")
  | FieldObject f => ret (name f)
  end.

(** The native record machinery: the class objects, [_process_class], which
    either raises or returns the processed class, and the field table it
    leaves on the class under [_FIELDS], the attribute
    [__dataclass_fields__]: a dictionary from field name to field object,
    in declaration order. *)
Variable Class : Type.
Variable _process_class :
  Class -> bool -> bool -> bool -> bool -> bool -> bool -> outcome Class.
Variable _FIELDS : Class -> list (string * Field).

(** [for field in table]: iterating a dictionary yields its keys, here the
    field names. *)
Definition iterate (table : list (string * Field)) : list object :=
  Str <$> table.*1.

(** The body of the loop of [_warned_process_class].  The method
    [supply_parameter] is looked up on the warning before the argument
    [field.name] is evaluated. *)
Definition register_field (field : object) : M unit :=
  let! deferred_warning := get_deferred_warning field in
  match deferred_warning with
  | None =>
      raise (AttributeError
               "'NoneType' object has no attribute 'supply_parameter'")
  | Some dw =>
      let! param := get_name field in
      let! _ := DeferredWarning.supply_parameter dw param in
      let! d := deref dw in
      fun w =>
        (Return tt,
         set_DEFERRED_WARNINGS (fun r => dict_append r (condition d) dw) w)
  end.

(** The function has no [return] statement: a call that completes yields
    Python's [None], written [None] here. *)
Definition _warned_process_class (cls : Class)
  (init repr eq order unsafe_hash frozen : bool) : M (option Class) :=
  let! cls := lift (_process_class cls init repr eq order unsafe_hash frozen) in
  let! _ := for_each (iterate (_FIELDS cls)) register_field in
  ret None.

(** What a call of [dataclass] evaluates to: the inner function [wrap] when
    it is called with parentheses, the result of [wrap(cls)] otherwise. *)
Inductive dataclass_result : Type :=
| Decorator (wrap : Class -> M (option Class))
| Decorated (result : option Class).

Definition dataclass (cls : option Class)
  (init repr eq order unsafe_hash frozen : bool) : M dataclass_result :=
  let wrap := fun cls =>
    _warned_process_class cls init repr eq order unsafe_hash frozen in
  match cls with
  | None => ret (Decorator wrap)
  | Some cls => let! r := wrap cls in ret (Decorated r)
  end.

(** The message template [field] closes over. *)
Definition warning_template (condition parameter : string) : string :=
  "Value provided for --" +:+ parameter +:+ " but " +:+
  "required condition " +:+ dq +:+ condition +:+ dq +:+ " not met.".

Definition field (condition : option string) (error_on_invoke : bool)
  (default default_factory : option PyObject) (init repr : bool)
  (hash : option bool) (compare : bool) (metadata : option PyObject)
  : M WarnedField :=
  let! deferred_warning :=
    match condition with
    | Some condition =>
        let! dw := DeferredWarning.__init__ condition
                     (fun parameter => warning_template condition parameter)
                     error_on_invoke in
        ret (Some dw)
    | None => ret None
    end in
  if bool_decide (is_Some default) && bool_decide (is_Some default_factory)
  then raise (ValueError "cannot specify both default and default_factory")
  else ret {| _deferred_warning := deferred_warning;
              default := default;
              default_factory := default_factory;
              init := init;
              repr := repr;
              hash := hash;
              compare := compare;
              metadata := metadata |}.

End Dataclasses.

Arguments Field PyObject : clear implicits.
Arguments WarnedField PyObject : clear implicits.
Arguments _deferred_warning {PyObject} w.
Arguments NativeField {PyObject} name.
Arguments Warned {PyObject} name f.
Arguments name {PyObject} field.
Arguments object PyObject : clear implicits.
Arguments Str {PyObject} s.
Arguments FieldObject {PyObject} field.
Arguments get_deferred_warning {PyObject} field.
Arguments get_name {PyObject} field.
Arguments iterate {PyObject} table.
Arguments register_field {PyObject} field.
Arguments _warned_process_class {PyObject Class} _process_class _FIELDS
  cls init repr eq order unsafe_hash frozen.
Arguments dataclass {PyObject Class} _process_class _FIELDS
  cls init repr eq order unsafe_hash frozen.
Arguments Decorator {Class} wrap.
Arguments Decorated {Class} result.
Arguments field {PyObject} condition error_on_invoke default default_factory
  init repr hash compare metadata.


(** ** Notions used in the statements *)

(** The warning a field object carries, if any. *)
Definition attached_warning {PyObject} (field : Field PyObject)
  : option loc :=
  match field with
  | NativeField _ => None
  | Warned _ f => _deferred_warning f
  end.

(** The error the hook raises on the first name of a field table. *)
Definition str_AttributeError : exn :=
  AttributeError "'str' object has no attribute '_deferred_warning'".

(** Well-formed worlds: every warning registered under a key is an object of
    the store, carries that key as its condition and has been given its
    message; no key is bound to an empty list. *)
Definition wf (w : World) : Prop :=
  forall key ls, dict_get (DEFERRED_WARNINGS w) key = Some ls ->
    ls <> [] /\
    forall l, l ∈ ls ->
      exists d, heap w !! l = Some d /\ condition d = key /\
                is_Some (message d).

(** [invoke()] on this warning returns: it is satisfied, or it is armed and
    in logging mode. *)
Definition passes (h : list DeferredWarning) (l : loc) : Prop :=
  exists d, h !! l = Some d /\
    (satisfied d = true \/ (error d = false /\ is_Some (message d))).

(** The messages of the unsatisfied warnings among [ls], in order. *)
Definition pending_messages (h : list DeferredWarning) (ls : list loc)
  : list string :=
  omap (fun l => match h !! l with
                 | Some d => if satisfied d then None else message d
                 | None => None
                 end) ls.

(** The store after [satisfy()] was called on each of [ls]. *)
Definition satisfy_all (ls : list loc) (h : list DeferredWarning)
  : list DeferredWarning :=
  imap (fun i d => if bool_decide (i ∈ ls) then set_satisfied true d else d) h.

(** [sub] occurs in [s]. *)
Definition contains (sub s : string) : Prop :=
  exists pre post, s = pre +:+ sub +:+ post.

(** The calls a program makes into the module, as steps between worlds:
    evaluating a [field(...)] in a class body, applying the decorator to a
    class, and the three registry functions.  A step is taken whether the
    call returns or raises. *)
Inductive client_step {PyObject Class : Type}
  (_process_class :
     Class -> bool -> bool -> bool -> bool -> bool -> bool -> outcome Class)
  (_FIELDS : Class -> list (string * Field PyObject)) (w w' : World) : Prop :=
| step_field (condition : option string) (error_on_invoke : bool)
    (default default_factory : option PyObject) (init repr : bool)
    (hash : option bool) (compare : bool) (metadata : option PyObject)
    (o : outcome (WarnedField PyObject)) :
    field condition error_on_invoke default default_factory init repr hash
      compare metadata w = (o, w') ->
    client_step _process_class _FIELDS w w'
| step_dataclass (cls : Class) (init repr eq order unsafe_hash frozen : bool)
    (o : outcome (option Class)) :
    _warned_process_class _process_class _FIELDS cls
      init repr eq order unsafe_hash frozen w = (o, w') ->
    client_step _process_class _FIELDS w w'
| step_satisfy (key : string) (o : outcome unit) :
    satisfy key w = (o, w') -> client_step _process_class _FIELDS w w'
| step_invoke (key : string) (o : outcome unit) :
    invoke key w = (o, w') -> client_step _process_class _FIELDS w w'
| step_invoke_all (o : outcome unit) :
    invoke_all w = (o, w') -> client_step _process_class _FIELDS w w'.

(** The worlds a program can be in. *)
Definition reachable {PyObject Class : Type}
  (_process_class :
     Class -> bool -> bool -> bool -> bool -> bool -> bool -> outcome Class)
  (_FIELDS : Class -> list (string * Field PyObject)) (w : World) : Prop :=
  rtc (client_step _process_class _FIELDS) initial_world w.

(** What the loop of [invoke] does on a store [h], read off the store alone:
    the messages it logs, in order, and how it ends. *)
Fixpoint invoke_run (h : list DeferredWarning) (ls : list loc)
  : list string * outcome unit :=
  match ls with
  | [] => ([], Return tt)
  | l :: ls' =>
      match h !! l with
      | None => ([], Raise (InvalidReference l))
      | Some d =>
          if satisfied d then invoke_run h ls'
          else match message d with
               | None => ([], Raise (ValueError "didn't supply parameter!"))
               | Some msg =>
                   if error d then ([], Raise (ConditionalParameterError msg))
                   else (msg :: (invoke_run h ls').1, (invoke_run h ls').2)
               end
      end
  end.

(** The messages [invoke(key)] logs in world [w]. *)
Definition invoke_messages (w : World) (key : string) : list string :=
  (invoke_run (heap w) (dict_item (DEFERRED_WARNINGS w) key)).1.

(** What calling [invoke] on each of [keys] in turn does, read off the store
    and the registry alone. *)
Fixpoint invoke_keys_run (h : list DeferredWarning) (d : dict)
  (keys : list string) : list string * outcome unit :=
  match keys with
  | [] => ([], Return tt)
  | key :: keys' =>
      match (invoke_run h (dict_item d key)).2 with
      | Return _ =>
          ((invoke_run h (dict_item d key)).1 ++ (invoke_keys_run h d keys').1,
           (invoke_keys_run h d keys').2)
      | Raise e => ((invoke_run h (dict_item d key)).1, Raise e)
      end
  end.

(** The outcome is a raised [KeyError]. *)
Definition is_KeyError {A} (o : outcome A) : bool :=
  match o with
  | Raise (KeyError _) => true
  | _ => false
  end.

(** How an object of the store may differ between an earlier and a later
    moment of a program. *)
Definition evolves (d d' : DeferredWarning) : Prop :=
  condition d' = condition d /\
  deferred_message d' = deferred_message d /\
  error d' = error d /\
  (satisfied d = true -> satisfied d' = true) /\
  (is_Some (message d) -> is_Some (message d')).

(** How a later world [w'] may differ from an earlier world [w]. *)
Definition grows (w w' : World) : Prop :=
  (forall l d, heap w !! l = Some d ->
     exists d', heap w' !! l = Some d' /\ evolves d d') /\
  (forall key ls, dict_get (DEFERRED_WARNINGS w) key = Some ls ->
     exists ls', dict_get (DEFERRED_WARNINGS w') key = Some (ls ++ ls')) /\
  logged w `prefix_of` logged w' /\
  printed w `prefix_of` printed w'.

(** One line ["initialized"] on the standard output per object of the
    store. *)
Definition printed_per_warning (w : World) : Prop :=
  printed w = replicate (length (heap w)) "initialized".

(** Calls a client makes for one condition key. *)
Inductive call : Type := Satisfy | Invoke.

Definition run_call (key : string) (c : call) : M unit :=
  match c with
  | Satisfy => satisfy key
  | Invoke => invoke key
  end.

(** ** A native record machinery for the examples

    A class is its field table; the native step returns it unchanged. *)
Definition ExampleClass : Type := list (string * Field unit).

Definition example_process_class (cls : ExampleClass)
  (init repr eq order unsafe_hash frozen : bool) : outcome ExampleClass :=
  Return cls.

Definition example_FIELDS (cls : ExampleClass)
  : list (string * Field unit) :=
  cls.

(** A type without fields. *)
Definition Empty : ExampleClass := [].

(** A world with three armed warnings registered under ["x"]: a logging
    one, then two in error mode. *)
Definition example_world : World :=
  {| heap := [mkDeferredWarning "x" (fun p => p) false false (Some "a");
              mkDeferredWarning "x" (fun p => p) false true (Some "b");
              mkDeferredWarning "x" (fun p => p) false true (Some "c")];
     DEFERRED_WARNINGS := [("x", [0; 1; 2])];
     logged := [];
     printed := [] |}.

(** The [Job] type of the specification's scenario: one field, [retries],
    declared with [field(condition="distributed", error_on_invoke=True)] as
    the first warning of the program. *)
Definition job_retries : WarnedField unit :=
  {| _deferred_warning := Some 0; default := None; default_factory := None;
     init := true; repr := true; hash := None; compare := true;
     metadata := None |}.

Definition Job : ExampleClass := [("retries", Warned "retries" job_retries)].

(** A type with two fields under condition ["x"]: [a], declared with a
    condition, and [b], declared with a plain [field()]. *)
Definition field_a : WarnedField unit :=
  {| _deferred_warning := Some 0; default := None; default_factory := None;
     init := true; repr := true; hash := None; compare := true;
     metadata := None |}.

Definition field_b : WarnedField unit :=
  {| _deferred_warning := None; default := None; default_factory := None;
     init := true; repr := true; hash := None; compare := true;
     metadata := None |}.

Definition Mixed : ExampleClass :=
  [("a", Warned "a" field_a); ("b", Warned "b" field_b)].

(** The world after the class body of [Mixed] was evaluated. *)
Definition mixed_world : World :=
  {| heap := [mkDeferredWarning "x" (warning_template "x") false false None];
     DEFERRED_WARNINGS := [];
     logged := [];
     printed := ["initialized"] |}.

(** The world after the class body of [Job] was evaluated. *)
Definition job_world : World :=
  {| heap := [mkDeferredWarning "distributed" (warning_template "distributed")
                false true None];
     DEFERRED_WARNINGS := [];
     logged := [];
     printed := ["initialized"] |}.

(** A world with two declared keys: an error-mode warning under ["x"] and
    a logging one under ["y"], both armed and unsatisfied. *)
Definition two_key_world : World :=
  {| heap := [mkDeferredWarning "x" (fun p => p) false true (Some "a");
              mkDeferredWarning "y" (fun p => p) false false (Some "b")];
     DEFERRED_WARNINGS := [("x", [0]); ("y", [1])];
     logged := [];
     printed := [] |}.

(** * Properties *)

(** ** The monad and the loop *)

Ltac step_monad :=
  unfold bind, ret, raise, lift, read_DEFERRED_WARNINGS, logger_warning,
    print, store, alloc; simpl.

Lemma for_each_app {A} (xs ys : list A) (body : A -> M unit) (w : World) :
  for_each (xs ++ ys) body w =
  match for_each xs body w with
  | (Return _, w') => for_each ys body w'
  | (Raise e, w') => (Raise e, w')
  end.
Proof.
  revert w. induction xs as [|x xs IH]; intros w; simpl.
  - reflexivity.
  - unfold bind. destruct (body x w) as [[[]|e] w']; [apply IH | reflexivity].
Qed.

Lemma for_each_unchanged {A} (xs : list A) (body : A -> M unit) (w : World) :
  (forall x, x ∈ xs -> body x w = (Return tt, w)) ->
  for_each xs body w = (Return tt, w).
Proof.
  induction xs as [|x xs IH]; intros Hbody; simpl.
  - reflexivity.
  - unfold bind. rewrite Hbody by apply list_elem_of_here.
    apply IH. intros y Hy. apply Hbody. by apply list_elem_of_further.
Qed.

(** ** The dictionary *)

Lemma dict_get_None (d : dict) (k : string) :
  dict_get d k = None <-> k ∉ dict_keys d.
Proof.
  unfold dict_keys. induction d as [|[k' v] d IH]; simpl.
  - split; [intros _; apply not_elem_of_nil | done].
  - rewrite not_elem_of_cons. destruct (decide (k' = k)) as [->|Hne].
    + split; [done | intros [? _]; done].
    + rewrite IH. split; [intros ?; split; [congruence | done] | tauto].
Qed.

Lemma dict_contains_false (d : dict) (k : string) :
  dict_contains d k = false <-> k ∉ dict_keys d.
Proof.
  rewrite <- dict_get_None. unfold dict_contains.
  destruct (dict_get d k); split; congruence.
Qed.

Lemma dict_get_append_eq (d : dict) (k : string) (l : loc) :
  dict_get (dict_append d k l) k = Some (dict_item d k ++ [l]).
Proof.
  unfold dict_item. induction d as [|[k' v] d IH]; simpl.
  - by rewrite decide_True.
  - destruct (decide (k' = k)) as [->|Hne]; simpl.
    + by rewrite decide_True.
    + by rewrite decide_False.
Qed.

Lemma dict_get_append_ne (d : dict) (k k' : string) (l : loc) :
  k <> k' -> dict_get (dict_append d k l) k' = dict_get d k'.
Proof.
  intros Hne. induction d as [|[k0 v] d IH]; simpl.
  - by rewrite decide_False.
  - destruct (decide (k0 = k)) as [->|Hne0]; simpl.
    + by rewrite !decide_False.
    + by rewrite IH.
Qed.

Lemma dict_keys_append (d : dict) (k : string) (l : loc) :
  dict_keys (dict_append d k l) =
  if dict_contains d k then dict_keys d else dict_keys d ++ [k].
Proof.
  unfold dict_keys, dict_contains. induction d as [|[k' v] d IH]; simpl.
  - reflexivity.
  - destruct (decide (k' = k)) as [->|Hne]; simpl; [reflexivity|].
    destruct (dict_get d k); simpl; f_equal; exact IH.
Qed.

(** A dictionary has one entry per key, and appending keeps it so. *)
Lemma dict_append_NoDup (d : dict) (k : string) (l : loc) :
  NoDup (dict_keys d) -> NoDup (dict_keys (dict_append d k l)).
Proof.
  intros Hnd. rewrite dict_keys_append.
  destruct (dict_contains d k) eqn:Hk; [done|].
  apply NoDup_app. split_and!; [done | | apply NoDup_singleton].
  intros x Hx ->%list_elem_of_singleton.
  by apply dict_contains_false in Hk.
Qed.

(** ** Methods of [DeferredWarning] *)

Lemma deref_Some (w : World) (l : loc) (d : DeferredWarning) :
  heap w !! l = Some d -> deref l w = (Return d, w).
Proof. intros H. unfold deref. by rewrite H. Qed.

Lemma DeferredWarning_satisfy_Some (w : World) (l : loc) (d : DeferredWarning) :
  heap w !! l = Some d ->
  DeferredWarning.satisfy l w =
  (Return tt, set_heap (fun h => <[l := set_satisfied true d]> h) w).
Proof.
  intros H. unfold DeferredWarning.satisfy, bind. by rewrite (deref_Some w l d).
Qed.

Lemma DeferredWarning_supply_parameter_Some (w : World) (l : loc)
  (d : DeferredWarning) (param : string) :
  heap w !! l = Some d ->
  DeferredWarning.supply_parameter l param w =
  (Return tt,
   set_heap (fun h => <[l := set_message (Some (deferred_message d param)) d]> h) w).
Proof.
  intros H. unfold DeferredWarning.supply_parameter, bind.
  by rewrite (deref_Some w l d).
Qed.

Lemma DeferredWarning_invoke_satisfied (w : World) (l : loc)
  (d : DeferredWarning) :
  heap w !! l = Some d -> satisfied d = true ->
  DeferredWarning.invoke l w = (Return tt, w).
Proof.
  intros H Hs. unfold DeferredWarning.invoke, bind.
  rewrite (deref_Some w l d) by done. by rewrite Hs.
Qed.

Lemma DeferredWarning_invoke_error (w : World) (l : loc)
  (d : DeferredWarning) (msg : string) :
  heap w !! l = Some d -> satisfied d = false -> message d = Some msg ->
  error d = true ->
  DeferredWarning.invoke l w = (Raise (ConditionalParameterError msg), w).
Proof.
  intros H Hs Hm He. unfold DeferredWarning.invoke, bind.
  rewrite (deref_Some w l d) by done. by rewrite Hs, Hm, He.
Qed.

Lemma DeferredWarning_invoke_logs (w : World) (l : loc)
  (d : DeferredWarning) (msg : string) :
  heap w !! l = Some d -> satisfied d = false -> message d = Some msg ->
  error d = false ->
  DeferredWarning.invoke l w =
  (Return tt, set_logged (fun lg => lg ++ [msg]) w).
Proof.
  intros H Hs Hm He. unfold DeferredWarning.invoke, bind.
  rewrite (deref_Some w l d) by done. by rewrite Hs, Hm, He.
Qed.

(** C6. [invoke()] on a warning that is not satisfied and whose message was
    never supplied raises the [ValueError] the specification calls
    [PreconditionError]; the world is left as it was. *)
Theorem invoke_unarmed_raises (w : World) (self : loc) (d : DeferredWarning) :
  heap w !! self = Some d -> satisfied d = false -> message d = None ->
  DeferredWarning.invoke self w =
  (Raise (ValueError "didn't supply parameter!"), w).
Proof.
  intros H Hs Hm. unfold DeferredWarning.invoke, bind.
  rewrite (deref_Some w self d) by done. by rewrite Hs, Hm.
Qed.

Lemma invoke_unarmed_raises_witness :
  DeferredWarning.invoke 0
    {| heap := [mkDeferredWarning "x" (fun p => p) false true None];
       DEFERRED_WARNINGS := []; logged := []; printed := [] |} =
  (Raise (ValueError "didn't supply parameter!"),
   {| heap := [mkDeferredWarning "x" (fun p => p) false true None];
      DEFERRED_WARNINGS := []; logged := []; printed := [] |}).
Proof.
  apply (invoke_unarmed_raises _ 0
           (mkDeferredWarning "x" (fun p => p) false true None));
    reflexivity.
Defined.

(** ** [satisfy] and [invoke] on the registry *)

(** C5. For a key that is not in [DEFERRED_WARNINGS], that is, a key under
    which no warning was ever registered, both [satisfy] and [invoke] raise
    the [KeyError] the specification calls [UnknownConditionError]. *)
Theorem undeclared_key_raises (w : World) (key : string) :
  key ∉ dict_keys (DEFERRED_WARNINGS w) ->
  satisfy key w = (Raise (satisfy_KeyError key), w) /\
  invoke key w = (Raise (invoke_KeyError key), w).
Proof.
  intros Hkey%dict_contains_false.
  unfold satisfy, invoke. step_monad. by rewrite Hkey.
Qed.

Lemma undeclared_key_raises_witness :
  satisfy "nonexistent" initial_world =
    (Raise (satisfy_KeyError "nonexistent"), initial_world) /\
  invoke "nonexistent" initial_world =
    (Raise (invoke_KeyError "nonexistent"), initial_world).
Proof.
  apply (undeclared_key_raises initial_world "nonexistent").
  simpl. apply not_elem_of_nil.
Defined.

Lemma invoke_declared (w : World) (key : string) (ls : list loc) :
  dict_get (DEFERRED_WARNINGS w) key = Some ls ->
  invoke key w = for_each ls DeferredWarning.invoke w.
Proof.
  intros H. unfold invoke, dict_contains, dict_item. step_monad. by rewrite H.
Qed.

Lemma satisfy_declared (w : World) (key : string) (ls : list loc) :
  dict_get (DEFERRED_WARNINGS w) key = Some ls ->
  satisfy key w = for_each ls DeferredWarning.satisfy w.
Proof.
  intros H. unfold satisfy, dict_contains, dict_item. step_monad. by rewrite H.
Qed.

(** Warnings that pass are invoked one after the other, each unsatisfied one
    logging its message. *)
Lemma for_each_invoke_passes (ls : list loc) (w : World) :
  Forall (passes (heap w)) ls ->
  for_each ls DeferredWarning.invoke w =
  (Return tt, set_logged (fun lg => lg ++ pending_messages (heap w) ls) w).
Proof.
  revert w. induction ls as [|l ls IH]; intros w Hall; simpl.
  - destruct w. unfold ret, set_logged. simpl. by rewrite app_nil_r.
  - apply Forall_cons in Hall as [(d & Hd & Hpass) Hall].
    unfold pending_messages in *. simpl. rewrite Hd. unfold bind.
    destruct (satisfied d) eqn:Hs.
    + rewrite (DeferredWarning_invoke_satisfied w l d) by done. by apply IH.
    + destruct Hpass as [|[He [msg Hm]]]; [congruence|].
      rewrite (DeferredWarning_invoke_logs w l d msg) by done.
      rewrite IH by done. rewrite Hm. unfold set_logged. simpl.
      by rewrite <- app_assoc.
Qed.

(** C3. [invoke(key)] goes through the warnings registered under [key] in
    registration order: those before the first one that raises log their
    messages in that order, and when that first one is an unsatisfied
    error-mode warning its [ConditionalParameterError] is what [invoke]
    raises.  The warnings registered after it play no part in the result:
    they are not evaluated. *)
Theorem invoke_raises_first_error (w : World) (key : string)
  (pre post : list loc) (l : loc) (d : DeferredWarning) (msg : string) :
  dict_get (DEFERRED_WARNINGS w) key = Some (pre ++ l :: post) ->
  Forall (passes (heap w)) pre ->
  heap w !! l = Some d -> satisfied d = false -> error d = true ->
  message d = Some msg ->
  invoke key w =
  (Raise (ConditionalParameterError msg),
   set_logged (fun lg => lg ++ pending_messages (heap w) pre) w).
Proof.
  intros Hkey Hpre Hd Hs He Hm.
  rewrite (invoke_declared w key _ Hkey), for_each_app.
  rewrite for_each_invoke_passes by done. simpl. unfold bind.
  by rewrite (DeferredWarning_invoke_error _ l d msg).
Qed.

Lemma invoke_raises_first_error_witness :
  invoke "x" example_world =
  (Raise (ConditionalParameterError "b"),
   set_logged (fun lg => lg ++ ["a"]) example_world).
Proof.
  apply (invoke_raises_first_error example_world "x" [0] [2] 1
           (mkDeferredWarning "x" (fun p => p) false true (Some "b")) "b");
    try reflexivity.
  apply Forall_cons. split; [|apply Forall_nil_2].
  eexists. split; [reflexivity|]. right. split; [reflexivity|]. by eexists.
Defined.

(** ** Satisfying a condition *)

Lemma satisfy_all_lookup (ls : list loc) (h : list DeferredWarning) (i : loc) :
  satisfy_all ls h !! i =
  (fun d => if bool_decide (i ∈ ls) then set_satisfied true d else d) <$> h !! i.
Proof. unfold satisfy_all. apply list_lookup_imap. Qed.

Lemma satisfy_all_length (ls : list loc) (h : list DeferredWarning) :
  length (satisfy_all ls h) = length h.
Proof. unfold satisfy_all. apply length_imap. Qed.

Lemma satisfy_all_nil (h : list DeferredWarning) : satisfy_all [] h = h.
Proof.
  apply list_eq. intros i. rewrite satisfy_all_lookup.
  rewrite bool_decide_eq_false_2 by apply not_elem_of_nil.
  by destruct (h !! i).
Qed.

Lemma satisfy_all_cons (l : loc) (ls : list loc) (h : list DeferredWarning)
  (d : DeferredWarning) :
  h !! l = Some d ->
  satisfy_all ls (<[l := set_satisfied true d]> h) = satisfy_all (l :: ls) h.
Proof.
  intros Hd. apply list_eq. intros i. rewrite !satisfy_all_lookup.
  destruct (decide (i = l)) as [->|Hne].
  - rewrite list_lookup_insert_eq by by eapply lookup_lt_Some.
    rewrite Hd. simpl. rewrite (bool_decide_eq_true_2 (l ∈ l :: ls))
      by apply list_elem_of_here.
    by destruct (bool_decide (l ∈ ls)).
  - rewrite list_lookup_insert_ne by done.
    destruct (h !! i) as [d'|]; [simpl|done].
    f_equal. apply (f_equal (fun b : bool => if b then _ else _)).
    apply bool_decide_ext. rewrite elem_of_cons. tauto.
Qed.

Lemma satisfy_all_idemp (ls : list loc) (h : list DeferredWarning) :
  satisfy_all ls (satisfy_all ls h) = satisfy_all ls h.
Proof.
  apply list_eq. intros i. rewrite !satisfy_all_lookup.
  destruct (h !! i) as [d|]; [simpl|done].
  by destruct (bool_decide (i ∈ ls)).
Qed.

(** The loop of [satisfy], on references that are in the store. *)
Lemma for_each_satisfy (ls : list loc) (w : World) :
  (forall l, l ∈ ls -> is_Some (heap w !! l)) ->
  for_each ls DeferredWarning.satisfy w =
  (Return tt, set_heap (satisfy_all ls) w).
Proof.
  revert w. induction ls as [|l ls IH]; intros w Hvalid; simpl.
  - unfold ret. f_equal. destruct w. unfold set_heap. simpl.
    by rewrite satisfy_all_nil.
  - destruct (Hvalid l) as [d Hd]; [apply list_elem_of_here|].
    unfold bind. rewrite (DeferredWarning_satisfy_Some w l d Hd).
    rewrite IH.
    + unfold set_heap. simpl. by rewrite (satisfy_all_cons l ls _ d).
    + intros l' Hl'. simpl. apply lookup_lt_is_Some. rewrite length_insert.
      apply lookup_lt_is_Some, Hvalid. by apply list_elem_of_further.
Qed.

Lemma dict_keys_get (d : dict) (k : string) :
  k ∈ dict_keys d <-> is_Some (dict_get d k).
Proof.
  destruct (dict_get d k) as [v|] eqn:Hget.
  - split; [by eexists|]. intros _.
    destruct (decide (k ∈ dict_keys d)) as [|Hn]; [done|].
    apply dict_get_None in Hn. congruence.
  - apply dict_get_None in Hget. split; [done | by intros [? ?]].
Qed.

(** C4. In a well-formed world, for a declared condition [c]: [satisfy(c)]
    returns without logging; a second [satisfy(c)] leaves the world, hence
    every registered warning, exactly as the first one left it; and from
    then on any sequence of [satisfy(c)] and [invoke(c)] calls returns
    without raising and leaves the world, hence the log, unchanged. *)
Theorem satisfy_idempotent_invoke_silent (w : World) (c : string) :
  wf w -> c ∈ dict_keys (DEFERRED_WARNINGS w) ->
  exists w1,
    satisfy c w = (Return tt, w1) /\
    logged w1 = logged w /\
    satisfy c w1 = (Return tt, w1) /\
    invoke c w1 = (Return tt, w1) /\
    forall calls, for_each calls (run_call c) w1 = (Return tt, w1).
Proof.
  intros Hwf [ls Hls]%dict_keys_get.
  destruct (Hwf c ls Hls) as [_ Hreg].
  assert (Hvalid : forall l, l ∈ ls -> is_Some (heap w !! l)).
  { intros l Hl. destruct (Hreg l Hl) as (d & Hd & _). by exists d. }
  set (w1 := set_heap (satisfy_all ls) w).
  assert (Hsat : satisfy c w = (Return tt, w1)).
  { rewrite (satisfy_declared w c ls Hls). by apply for_each_satisfy. }
  assert (Hsat1 : satisfy c w1 = (Return tt, w1)).
  { rewrite (satisfy_declared w1 c ls Hls). rewrite for_each_satisfy.
    - unfold w1, set_heap. simpl. by rewrite satisfy_all_idemp.
    - intros l Hl. simpl. apply lookup_lt_is_Some.
      rewrite satisfy_all_length. by apply lookup_lt_is_Some, Hvalid. }
  assert (Hinv1 : invoke c w1 = (Return tt, w1)).
  { rewrite (invoke_declared w1 c ls Hls). apply for_each_unchanged.
    intros l Hl. destruct (Hvalid l Hl) as [d Hd].
    apply (DeferredWarning_invoke_satisfied w1 l (set_satisfied true d));
      [|done].
    simpl. rewrite satisfy_all_lookup, Hd. simpl.
    by rewrite bool_decide_eq_true_2. }
  exists w1. split_and!; try done.
  intros calls. apply for_each_unchanged. by intros [] _.
Qed.

Lemma example_world_wf : wf example_world.
Proof.
  intros key ls Hget. simpl in Hget.
  destruct (decide ("x" = key)) as [<-|]; [|done].
  injection Hget as <-. split; [done|].
  intros l Hl. apply list_elem_of_lookup in Hl as [i Hi].
  destruct i as [|[|[|i]]]; simpl in Hi; try done;
    injection Hi as <-; eexists; (split; [reflexivity|]);
    (split; [reflexivity | by eexists]).
Qed.

Lemma satisfy_idempotent_invoke_silent_witness :
  exists w1,
    satisfy "x" example_world = (Return tt, w1) /\
    logged w1 = logged example_world /\
    satisfy "x" w1 = (Return tt, w1) /\
    invoke "x" w1 = (Return tt, w1) /\
    forall calls, for_each calls (run_call "x") w1 = (Return tt, w1).
Proof.
  apply (satisfy_idempotent_invoke_silent example_world "x").
  - exact example_world_wf.
  - simpl. apply list_elem_of_here.
Defined.

(** ** The field factory *)

Lemma string_app_assoc (s1 s2 s3 : string) :
  (s1 +:+ s2) +:+ s3 = s1 +:+ s2 +:+ s3.
Proof.
  induction s1 as [|a s1 IH]; [reflexivity|].
  change (String a ((s1 +:+ s2) +:+ s3) = String a (s1 +:+ s2 +:+ s3)).
  by rewrite IH.
Qed.

Lemma warning_template_contains_parameter (condition parameter : string) :
  contains ("--" +:+ parameter) (warning_template condition parameter).
Proof.
  exists "Value provided for ",
    (" but required condition " +:+ dq +:+ condition +:+ dq +:+ " not met.").
  unfold warning_template. rewrite string_app_assoc. reflexivity.
Qed.

Lemma warning_template_contains_condition (condition parameter : string) :
  contains condition (warning_template condition parameter).
Proof.
  exists ("Value provided for --" +:+ parameter +:+
          " but required condition " +:+ dq), (dq +:+ " not met.").
  unfold warning_template. rewrite !string_app_assoc. reflexivity.
Qed.

Section Field.

Context {PyObject : Type}.
Implicit Types (default default_factory metadata : option PyObject).

(** With a condition, [field] creates the warning first, then checks the
    defaults. *)
Lemma field_with_condition (c : string) (e : bool) default default_factory
  (init repr : bool) (hash : option bool) (compare : bool) metadata
  (w : World) :
  field (Some c) e default default_factory init repr hash compare metadata w =
  (match default, default_factory with
   | Some _, Some _ =>
       Raise (ValueError "cannot specify both default and default_factory")
   | _, _ =>
       Return (mkWarnedField PyObject (Some (length (heap w))) default
                 default_factory init repr hash compare metadata)
   end,
   set_heap (fun h => h ++ [mkDeferredWarning c (warning_template c) false e None])
     (set_printed (fun out => out ++ ["initialized"]) w)).
Proof. by destruct default, default_factory. Qed.

(** Without one it creates nothing. *)
Lemma field_without_condition (e : bool) default default_factory
  (init repr : bool) (hash : option bool) (compare : bool) metadata
  (w : World) :
  field None e default default_factory init repr hash compare metadata w =
  (match default, default_factory with
   | Some _, Some _ =>
       Raise (ValueError "cannot specify both default and default_factory")
   | _, _ =>
       Return (mkWarnedField PyObject None default default_factory init repr
                 hash compare metadata)
   end, w).
Proof. by destruct default, default_factory. Qed.

(** C8. [field] given both [default] and [default_factory] raises the
    [ValueError] the specification calls [ConfigError]; given at most one
    of them it returns the field specification built from its
    arguments. *)
Theorem field_default_exclusive (condition : option string) (e : bool)
  default default_factory (init repr : bool) (hash : option bool)
  (compare : bool) metadata (w : World) :
  exists w',
    field condition e default default_factory init repr hash compare
      metadata w =
    (match default, default_factory with
     | Some _, Some _ =>
         Raise (ValueError "cannot specify both default and default_factory")
     | _, _ =>
         Return (mkWarnedField PyObject
                   (match condition with
                    | Some _ => Some (length (heap w))
                    | None => None
                    end)
                   default default_factory init repr hash compare metadata)
     end, w').
Proof.
  destruct condition as [c|]; eexists.
  - apply field_with_condition.
  - apply field_without_condition.
Qed.

(** C7. After [supply_parameter(n)] on the warning that
    [field(condition=c)] created, the stored message is the template
    applied to [n]; it contains [--] immediately followed by [n], and it
    contains [c]. *)
Theorem supplied_message_is_template (c : string) (e : bool)
  default default_factory (init repr : bool) (hash : option bool)
  (compare : bool) metadata (w w1 : World) (f : WarnedField PyObject)
  (n : string) :
  field (Some c) e default default_factory init repr hash compare
    metadata w = (Return f, w1) ->
  exists l d w2,
    _deferred_warning f = Some l /\
    DeferredWarning.supply_parameter l n w1 = (Return tt, w2) /\
    heap w2 !! l = Some d /\
    condition d = c /\ error d = e /\ satisfied d = false /\
    message d = Some (warning_template c n) /\
    contains ("--" +:+ n) (warning_template c n) /\
    contains c (warning_template c n).
Proof.
  rewrite field_with_condition. intros Hfield.
  injection Hfield as Hf <-.
  assert (Hnew : (heap w ++ [mkDeferredWarning c (warning_template c) false e None])
                   !! length (heap w) =
                 Some (mkDeferredWarning c (warning_template c) false e None)).
  { by rewrite lookup_app_r, Nat.sub_diag. }
  exists (length (heap w)),
    (set_message (Some (warning_template c n))
       (mkDeferredWarning c (warning_template c) false e None)).
  eexists. split_and!.
  - destruct default, default_factory; by inversion Hf.
  - by apply DeferredWarning_supply_parameter_Some.
  - simpl. apply list_lookup_insert_eq. by eapply lookup_lt_Some.
  - reflexivity.
  - reflexivity.
  - reflexivity.
  - reflexivity.
  - apply warning_template_contains_parameter.
  - apply warning_template_contains_condition.
Qed.

End Field.

Lemma supplied_message_is_template_witness :
  exists l d w2,
    _deferred_warning job_retries = Some l /\
    DeferredWarning.supply_parameter l "retries"
      (set_heap (fun h => h ++ [mkDeferredWarning "distributed"
                                  (warning_template "distributed") false true None])
         (set_printed (fun out => out ++ ["initialized"]) initial_world)) =
      (Return tt, w2) /\
    heap w2 !! l = Some d /\
    condition d = "distributed" /\ error d = true /\ satisfied d = false /\
    message d = Some (warning_template "distributed" "retries") /\
    contains ("--" +:+ "retries") (warning_template "distributed" "retries") /\
    contains "distributed" (warning_template "distributed" "retries").
Proof.
  apply (supplied_message_is_template (PyObject:=unit) "distributed" true
           None None true true None true None initial_world).
  reflexivity.
Defined.

(** ** The registration hook *)

Section Hook.

Context {PyObject Class : Type}.
Variable _process_class :
  Class -> bool -> bool -> bool -> bool -> bool -> bool -> outcome Class.
Variable _FIELDS : Class -> list (string * Field PyObject).

(** One turn of the loop on a name. *)
Lemma register_field_Str (s : string) (w : World) :
  register_field (PyObject:=PyObject) (Str s) w = (Raise str_AttributeError, w).
Proof. reflexivity. Qed.

(** One turn of the loop, had it been given a field object that carries no
    warning. *)
Lemma register_field_unwarned (field : Field PyObject) (w : World) :
  attached_warning field = None ->
  exists msg,
    register_field (FieldObject field) w = (Raise (AttributeError msg), w).
Proof.
  intros Hatt. destruct field as [n|n f]; [by eexists|]. simpl in Hatt.
  unfold register_field, get_deferred_warning, bind, ret. rewrite Hatt.
  by eexists.
Qed.

(** The loop: nothing to do on an empty table, an error on the first name
    of any other. *)
Lemma hook_loop (table : list (string * Field PyObject)) (w : World) :
  for_each (iterate table) register_field w =
  match table with
  | [] => (Return tt, w)
  | _ :: _ => (Raise str_AttributeError, w)
  end.
Proof. by destruct table. Qed.

(** How the hook ends, and that it leaves the world as it was. *)
Lemma hook_outcome (cls : Class)
  (init repr eq order unsafe_hash frozen : bool) (w : World) :
  _warned_process_class _process_class _FIELDS cls
    init repr eq order unsafe_hash frozen w =
  (match _process_class cls init repr eq order unsafe_hash frozen with
   | Raise e => Raise e
   | Return cls' =>
       match _FIELDS cls' with
       | [] => Return None
       | _ :: _ => Raise str_AttributeError
       end
   end, w).
Proof.
  unfold _warned_process_class, bind, lift, ret.
  destruct (_process_class cls init repr eq order unsafe_hash frozen)
    as [cls'|e]; [|done].
  rewrite hook_loop. by destruct (_FIELDS cls').
Qed.

Lemma hook_leaves_world (cls : Class)
  (init repr eq order unsafe_hash frozen : bool) (w : World)
  (o : outcome (option Class)) (w' : World) :
  _warned_process_class _process_class _FIELDS cls
    init repr eq order unsafe_hash frozen w = (o, w') ->
  w' = w.
Proof. rewrite hook_outcome. by intros [= _ <-]. Qed.

Lemma dataclass_outcome (cls : Class)
  (init repr eq order unsafe_hash frozen : bool) (w : World) :
  dataclass _process_class _FIELDS (Some cls)
    init repr eq order unsafe_hash frozen w =
  (match _process_class cls init repr eq order unsafe_hash frozen with
   | Raise e => Raise e
   | Return cls' =>
       match _FIELDS cls' with
       | [] => Return (Decorated None)
       | _ :: _ => Raise str_AttributeError
       end
   end, w).
Proof.
  unfold dataclass, bind, ret. rewrite hook_outcome.
  destruct (_process_class cls init repr eq order unsafe_hash frozen)
    as [cls'|e]; [|done].
  by destruct (_FIELDS cls').
Qed.

(** C9. When the finalized field table has a field with no attached
    warning, applying the decorator raises [AttributeError] from inside the
    registration hook, which does not skip that field; the world is left as
    it was. *)
Theorem dataclass_raises_on_unwarned_field (cls cls' : Class)
  (init repr eq order unsafe_hash frozen : bool) (w : World) :
  _process_class cls init repr eq order unsafe_hash frozen = Return cls' ->
  (exists n field, (n, field) ∈ _FIELDS cls' /\ attached_warning field = None) ->
  _warned_process_class _process_class _FIELDS cls
    init repr eq order unsafe_hash frozen w =
    (Raise str_AttributeError, w) /\
  dataclass _process_class _FIELDS (Some cls)
    init repr eq order unsafe_hash frozen w =
    (Raise str_AttributeError, w).
Proof.
  intros Hnative (n & field & Hin & _).
  rewrite hook_outcome, dataclass_outcome, Hnative.
  destruct (_FIELDS cls'); [by apply elem_of_nil in Hin | done].
Qed.

(** C1. The decorator applied to a class never evaluates to a class: it
    raises or evaluates to [None].  In particular, for a class whose
    finalized field table is empty, [_warned_process_class] runs to its end
    and, having no [return], yields [None]. *)
Theorem dataclass_never_returns_class (cls : Class)
  (init repr eq order unsafe_hash frozen : bool) (w : World) :
  ((exists w', dataclass _process_class _FIELDS (Some cls)
                 init repr eq order unsafe_hash frozen w =
               (Return (Decorated None), w')) \/
   (exists e w', dataclass _process_class _FIELDS (Some cls)
                   init repr eq order unsafe_hash frozen w =
                 (Raise e, w'))) /\
  forall cls',
    _process_class cls init repr eq order unsafe_hash frozen = Return cls' ->
    _FIELDS cls' = [] ->
    dataclass _process_class _FIELDS (Some cls)
      init repr eq order unsafe_hash frozen w =
    (Return (Decorated None), w).
Proof.
  rewrite dataclass_outcome. split.
  - destruct (_process_class cls init repr eq order unsafe_hash frozen)
      as [cls'|e]; [|right; by eauto].
    destruct (_FIELDS cls'); [left | right]; by eauto.
  - by intros cls' -> ->.
Qed.

(** Called with parentheses, the decorator evaluates to the inner function,
    which behaves the same way. *)
Lemma dataclass_with_parentheses
  (init repr eq order unsafe_hash frozen : bool) (w : World) :
  dataclass _process_class _FIELDS None
    init repr eq order unsafe_hash frozen w =
  (Return (Decorator (fun cls =>
     _warned_process_class _process_class _FIELDS cls
       init repr eq order unsafe_hash frozen)), w).
Proof. reflexivity. Qed.

End Hook.

Lemma dataclass_never_returns_class_witness :
  dataclass example_process_class example_FIELDS (Some Empty)
    true true true false false false initial_world =
  (Return (Decorated None), initial_world).
Proof.
  apply (proj2 (dataclass_never_returns_class example_process_class
                  example_FIELDS Empty true true true false false false
                  initial_world) Empty);
    reflexivity.
Defined.

Lemma dataclass_raises_on_unwarned_field_witness :
  _warned_process_class example_process_class example_FIELDS Mixed
    true true true false false false mixed_world =
    (Raise str_AttributeError, mixed_world) /\
  dataclass example_process_class example_FIELDS (Some Mixed)
    true true true false false false mixed_world =
    (Raise str_AttributeError, mixed_world).
Proof.
  apply (dataclass_raises_on_unwarned_field example_process_class
           example_FIELDS Mixed Mixed true true true false false false
           mixed_world).
  - reflexivity.
  - exists "b", (Warned "b" field_b).
    split; [apply list_elem_of_further, list_elem_of_here | reflexivity].
Defined.

(** C2. The hook neither arms and registers the fields that carry a
    warning nor skips those that carry none.  For the type [Mixed], whose
    class body creates [a] with [field(condition="x")] and [b] with
    [field()], the decorator raises [AttributeError] on the first name it
    meets: the warning of [a] keeps its message unset and the registry
    stays empty. *)
Theorem hook_raises_on_first_name :
  field (PyObject:=unit) (Some "x") false None None true true None true None
    initial_world = (Return field_a, mixed_world) /\
  field (PyObject:=unit) None false None None true true None true None
    mixed_world = (Return field_b, mixed_world) /\
  dataclass example_process_class example_FIELDS (Some Mixed)
    true true true false false false mixed_world =
  (Raise (AttributeError "'str' object has no attribute '_deferred_warning'"),
   mixed_world) /\
  heap mixed_world !! 0 =
    Some (mkDeferredWarning "x" (warning_template "x") false false None) /\
  DEFERRED_WARNINGS mixed_world = [].
Proof. split_and!; reflexivity. Qed.

(** The scenario of the specification: the class body of [Job] creates the
    warning, but the decorator raises on the name [retries] and registers
    nothing, so that [satisfy("distributed")] and [invoke("distributed")]
    find the condition undeclared. *)
Example dataclass_Job :
  field (PyObject:=unit) (Some "distributed") true None None true true None
    true None initial_world = (Return job_retries, job_world) /\
  dataclass example_process_class example_FIELDS (Some Job)
    true true true false false false job_world =
    (Raise str_AttributeError, job_world) /\
  invoke "distributed" job_world =
    (Raise (invoke_KeyError "distributed"), job_world) /\
  satisfy "distributed" job_world =
    (Raise (satisfy_KeyError "distributed"), job_world).
Proof. split_and!; reflexivity. Qed.

(** C10. [field] called without a condition creates no warning and leaves
    the world as it was, whatever [error_on_invoke] is; the specification it
    returns carries no warning.  The hook's loop body raises on it without
    changing anything, and so does the hook on any class whose finalized
    table holds it: it adds no entry to the registry, and [invoke] behaves
    after it as it did before. *)
Theorem field_without_condition_inert {PyObject : Type} (e e' : bool)
  (default default_factory : option PyObject) (init repr : bool)
  (hash : option bool) (compare : bool) (metadata : option PyObject)
  (w : World) :
  field None e default default_factory init repr hash compare metadata w =
  field None e' default default_factory init repr hash compare metadata w /\
  forall f w',
    field None e default default_factory init repr hash compare metadata w =
      (Return f, w') ->
    w' = w /\ _deferred_warning f = None /\
    (forall key, invoke key w' = invoke key w) /\
    (forall n w0, exists msg,
       register_field (FieldObject (Warned n f)) w0 =
       (Raise (AttributeError msg), w0)) /\
    forall (Class : Type)
      (_process_class :
         Class -> bool -> bool -> bool -> bool -> bool -> bool -> outcome Class)
      (_FIELDS : Class -> list (string * Field PyObject)) (cls cls' : Class)
      (i r q o u z : bool) (n : string) (w0 : World),
      _process_class cls i r q o u z = Return cls' ->
      (n, Warned n f) ∈ _FIELDS cls' ->
      exists msg,
        _warned_process_class _process_class _FIELDS cls i r q o u z w0 =
        (Raise (AttributeError msg), w0).
Proof.
  split; [by rewrite !field_without_condition|].
  intros f w'. rewrite field_without_condition. intros Hfield.
  assert (w' = w /\ _deferred_warning f = None) as [-> Hnone].
  { destruct default, default_factory; by inversion Hfield. }
  split_and!; try done.
  - intros n w0. by apply register_field_unwarned.
  - intros Class _process_class _FIELDS cls cls' i r q o u z n w0 Hnative Hin.
    rewrite hook_outcome, Hnative.
    destruct (_FIELDS cls'); [by apply elem_of_nil in Hin | by eexists].
Qed.

Lemma field_without_condition_inert_witness :
  mixed_world = mixed_world /\ _deferred_warning field_b = None /\
  (forall key, invoke key mixed_world = invoke key mixed_world) /\
  (forall n w0, exists msg,
     register_field (FieldObject (Warned n field_b)) w0 =
     (Raise (AttributeError msg), w0)) /\
  forall (Class : Type)
    (_process_class :
       Class -> bool -> bool -> bool -> bool -> bool -> bool -> outcome Class)
    (_FIELDS : Class -> list (string * Field unit)) (cls cls' : Class)
    (i r q o u z : bool) (n : string) (w0 : World),
    _process_class cls i r q o u z = Return cls' ->
    (n, Warned n field_b) ∈ _FIELDS cls' ->
    exists msg,
      _warned_process_class _process_class _FIELDS cls i r q o u z w0 =
      (Raise (AttributeError msg), w0).
Proof.
  apply (proj2 (field_without_condition_inert (PyObject:=unit) true false
                  None None true true None true None mixed_world)).
  reflexivity.
Defined.

(** ** Well-formedness is an invariant *)

Lemma wf_initial : wf initial_world.
Proof. intros key ls Hget. discriminate. Qed.

Lemma wf_heap_update (w : World) (l : loc) (d d' : DeferredWarning) :
  heap w !! l = Some d -> condition d' = condition d ->
  (is_Some (message d) -> is_Some (message d')) ->
  wf w -> wf (set_heap (fun h => <[l := d']> h) w).
Proof.
  intros Hd Hcond Hmsg Hwf key ls Hget.
  destruct (Hwf key ls Hget) as [Hne Hreg]. split; [done|].
  intros l' Hl'. destruct (Hreg l' Hl') as (d0 & Hd0 & Hc0 & Hm0). simpl.
  destruct (decide (l' = l)) as [->|Hneq].
  - exists d'. rewrite list_lookup_insert_eq by by eapply lookup_lt_Some.
    assert (d0 = d) as -> by congruence.
    split_and!; [done | congruence | by apply Hmsg].
  - exists d0. by rewrite list_lookup_insert_ne.
Qed.

Lemma wf_heap_alloc (w : World) (d : DeferredWarning) :
  wf w -> wf (set_heap (fun h => h ++ [d]) w).
Proof.
  intros Hwf key ls Hget. destruct (Hwf key ls Hget) as [Hne Hreg].
  split; [done|]. intros l Hl.
  destruct (Hreg l Hl) as (d0 & Hd0 & Hrest). exists d0.
  split; [|done]. simpl. by apply lookup_app_l_Some.
Qed.

Lemma wf_set_logged (w : World) (f : list string -> list string) :
  wf w -> wf (set_logged f w).
Proof. done. Qed.

Lemma wf_set_printed (w : World) (f : list string -> list string) :
  wf w -> wf (set_printed f w).
Proof. done. Qed.

Lemma for_each_preserves {A} (P : World -> Prop) (body : A -> M unit)
  (xs : list A) :
  (forall x w o w', P w -> body x w = (o, w') -> P w') ->
  forall w o w', P w -> for_each xs body w = (o, w') -> P w'.
Proof.
  intros Hbody. induction xs as [|x xs IH]; intros w o w' HP; simpl.
  - intros [= <- <-]. done.
  - unfold bind. destruct (body x w) as [[[]|e] w1] eqn:Hx.
    + apply IH. by eapply Hbody.
    + intros [= <- <-]. by eapply Hbody.
Qed.

Lemma wf_DeferredWarning_satisfy (l : loc) (w : World) (o : outcome unit)
  (w' : World) :
  wf w -> DeferredWarning.satisfy l w = (o, w') -> wf w'.
Proof.
  intros Hwf. unfold DeferredWarning.satisfy, bind, deref.
  destruct (heap w !! l) as [d|] eqn:Hd; intros [= <- <-]; [|done].
  by apply (wf_heap_update w l d).
Qed.

Lemma wf_DeferredWarning_invoke (l : loc) (w : World) (o : outcome unit)
  (w' : World) :
  wf w -> DeferredWarning.invoke l w = (o, w') -> wf w'.
Proof.
  intros Hwf. unfold DeferredWarning.invoke, bind, deref.
  destruct (heap w !! l) as [d|]; [|by intros [= <- <-]].
  destruct (satisfied d); simpl; [by intros [= <- <-]|].
  destruct (message d); [|by intros [= <- <-]].
  destruct (error d); by intros [= <- <-].
Qed.

Lemma wf_satisfy (key : string) (w : World) (o : outcome unit) (w' : World) :
  wf w -> satisfy key w = (o, w') -> wf w'.
Proof.
  intros Hwf. unfold satisfy, bind, read_DEFERRED_WARNINGS.
  destruct (dict_contains (DEFERRED_WARNINGS w) key); simpl.
  - by apply (for_each_preserves wf _ _ wf_DeferredWarning_satisfy).
  - by intros [= <- <-].
Qed.

Lemma wf_invoke (key : string) (w : World) (o : outcome unit) (w' : World) :
  wf w -> invoke key w = (o, w') -> wf w'.
Proof.
  intros Hwf. unfold invoke, bind, read_DEFERRED_WARNINGS.
  destruct (dict_contains (DEFERRED_WARNINGS w) key); simpl.
  - by apply (for_each_preserves wf _ _ wf_DeferredWarning_invoke).
  - by intros [= <- <-].
Qed.

Lemma wf_invoke_all (w : World) (o : outcome unit) (w' : World) :
  wf w -> invoke_all w = (o, w') -> wf w'.
Proof.
  intros Hwf. unfold invoke_all, bind, read_DEFERRED_WARNINGS.
  by apply (for_each_preserves wf _ _ wf_invoke).
Qed.

Section Invariant.

Context {PyObject Class : Type}.
Variable _process_class :
  Class -> bool -> bool -> bool -> bool -> bool -> bool -> outcome Class.
Variable _FIELDS : Class -> list (string * Field PyObject).

Lemma wf_field (condition : option string) (e : bool)
  (default default_factory : option PyObject) (init repr : bool)
  (hash : option bool) (compare : bool) (metadata : option PyObject)
  (w : World) (o : outcome (WarnedField PyObject)) (w' : World) :
  wf w ->
  field condition e default default_factory init repr hash compare
    metadata w = (o, w') ->
  wf w'.
Proof.
  intros Hwf. destruct condition as [c|].
  - rewrite field_with_condition. intros [= _ <-].
    by apply wf_heap_alloc, wf_set_printed.
  - rewrite field_without_condition. by intros [= _ <-].
Qed.

Lemma wf_warned_process_class (cls : Class)
  (init repr eq order unsafe_hash frozen : bool) (w : World)
  (o : outcome (option Class)) (w' : World) :
  wf w ->
  _warned_process_class _process_class _FIELDS cls
    init repr eq order unsafe_hash frozen w = (o, w') ->
  wf w'.
Proof. intros Hwf ->%hook_leaves_world. done. Qed.

Lemma wf_client_step (w w' : World) :
  wf w -> client_step _process_class _FIELDS w w' -> wf w'.
Proof.
  intros Hwf [].
  - by eapply wf_field.
  - by eapply wf_warned_process_class.
  - by eapply wf_satisfy.
  - by eapply wf_invoke.
  - by eapply wf_invoke_all.
Qed.

(** Every world a program can be in is well formed. *)
Lemma reachable_wf (w : World) :
  reachable _process_class _FIELDS w -> wf w.
Proof.
  unfold reachable. revert w. apply rtc_ind_r.
  - apply wf_initial.
  - intros w1 w2 _ Hstep IH. by eapply wf_client_step.
Qed.

End Invariant.

(** In a well-formed world [invoke] on a declared key either returns or
    raises the [ConditionalParameterError] of a registered warning: the
    registered warnings are all armed. *)
Lemma invoke_wf_outcome (key : string) (w : World) :
  wf w -> key ∈ dict_keys (DEFERRED_WARNINGS w) ->
  exists w', invoke key w = (Return tt, w') \/
             exists msg, invoke key w = (Raise (ConditionalParameterError msg), w').
Proof.
  intros Hwf [ls Hls]%dict_keys_get.
  rewrite (invoke_declared w key ls Hls).
  destruct (Hwf key ls Hls) as [_ Hreg]. clear Hls.
  assert (Hall : forall l, l ∈ ls ->
            exists d, heap w !! l = Some d /\ is_Some (message d)).
  { intros l Hl. destruct (Hreg l Hl) as (d & ? & _ & ?). by eauto. }
  clear Hreg Hwf. revert w Hall.
  induction ls as [|l ls IH]; intros w Hall; simpl.
  - exists w. by left.
  - destruct (Hall l) as (d & Hd & [msg Hm]); [apply list_elem_of_here|].
    unfold bind.
    destruct (satisfied d) eqn:Hs;
      [rewrite (DeferredWarning_invoke_satisfied w l d) by done|
       destruct (error d) eqn:He;
       [rewrite (DeferredWarning_invoke_error w l d msg) by done|
        rewrite (DeferredWarning_invoke_logs w l d msg) by done]].
    + apply IH. intros l' Hl'. apply Hall. by apply list_elem_of_further.
    + exists w. right. by exists msg.
    + apply IH. intros l' Hl'. simpl. apply Hall.
      by apply list_elem_of_further.
Qed.


(** * Further properties of the registry functions *)

(** ** [invoke] as a function of the store *)

Lemma set_logged_nil (w : World) : set_logged (fun lg => lg ++ []) w = w.
Proof. destruct w. unfold set_logged. simpl. by rewrite app_nil_r. Qed.

Lemma set_logged_app (w : World) (ms1 ms2 : list string) :
  set_logged (fun lg => lg ++ ms2) (set_logged (fun lg => lg ++ ms1) w) =
  set_logged (fun lg => lg ++ ms1 ++ ms2) w.
Proof. unfold set_logged. simpl. by rewrite app_assoc. Qed.

Lemma for_each_invoke_run (ls : list loc) (w : World) :
  for_each ls DeferredWarning.invoke w =
  ((invoke_run (heap w) ls).2,
   set_logged (fun lg => lg ++ (invoke_run (heap w) ls).1) w).
Proof.
  revert w. induction ls as [|l ls IH]; intros w; simpl.
  - unfold ret. by rewrite set_logged_nil.
  - unfold bind, DeferredWarning.invoke at 1, bind, deref.
    destruct (heap w !! l) as [d|] eqn:Hd; simpl;
      [|by rewrite set_logged_nil].
    destruct (satisfied d); simpl; [apply IH|].
    destruct (message d) as [msg|]; [|unfold raise; by rewrite set_logged_nil].
    destruct (error d); [unfold raise; by rewrite set_logged_nil|].
    unfold logger_warning. rewrite IH. simpl.
    by rewrite (set_logged_app w [msg]).
Qed.

Lemma invoke_run_ext (h h' : list DeferredWarning) (ls : list loc) :
  (forall l, l ∈ ls -> h' !! l = h !! l) ->
  invoke_run h' ls = invoke_run h ls.
Proof.
  induction ls as [|l ls IH]; intros Hagree; simpl; [done|].
  rewrite Hagree by apply list_elem_of_here.
  rewrite IH; [done|]. intros l' Hl'. apply Hagree.
  by apply list_elem_of_further.
Qed.

Lemma invoke_as_run (key : string) (w : World) :
  invoke key w =
  if dict_contains (DEFERRED_WARNINGS w) key then
    ((invoke_run (heap w) (dict_item (DEFERRED_WARNINGS w) key)).2,
     set_logged
       (fun lg => lg ++ (invoke_run (heap w)
                           (dict_item (DEFERRED_WARNINGS w) key)).1) w)
  else (Raise (invoke_KeyError key), w).
Proof.
  unfold invoke, bind, read_DEFERRED_WARNINGS.
  destruct (dict_contains (DEFERRED_WARNINGS w) key); simpl; [|done].
  apply for_each_invoke_run.
Qed.

(** X1. When the warnings registered under a key are all unsatisfied, armed
    and in logging mode, [invoke(key)] returns after logging exactly one
    message per warning, in registration order, each being the message of
    the warning at that position. *)
Theorem invoke_logs_each_unsatisfied (w : World) (key : string)
  (ls : list loc) :
  dict_get (DEFERRED_WARNINGS w) key = Some ls ->
  (forall l, l ∈ ls ->
     exists d, heap w !! l = Some d /\ satisfied d = false /\
               error d = false /\ is_Some (message d)) ->
  exists msgs,
    invoke key w = (Return tt, set_logged (fun lg => lg ++ msgs) w) /\
    Forall2 (fun l msg => exists d, heap w !! l = Some d /\
                                    message d = Some msg) ls msgs.
Proof.
  intros Hkey Hall. rewrite invoke_as_run.
  unfold dict_contains, dict_item. rewrite Hkey. simpl. clear Hkey.
  exists (invoke_run (heap w) ls).1.
  induction ls as [|l ls IH]; simpl.
  - split; [done | apply Forall2_nil_2].
  - destruct (Hall l) as (d & Hd & Hs & He & [msg Hm]);
      [apply list_elem_of_here|].
    destruct IH as [IH1 IH2].
    { intros l' Hl'. apply Hall. by apply list_elem_of_further. }
    rewrite Hd, Hs, Hm, He. simpl. split.
    + by injection IH1 as ->.
    + apply Forall2_cons. split; [by eauto | done].
Qed.

Lemma invoke_logs_each_unsatisfied_witness :
  exists msgs,
    invoke "x"
      {| heap := [mkDeferredWarning "x" (fun p => p) false false (Some "a");
                  mkDeferredWarning "x" (fun p => p) false false (Some "b")];
         DEFERRED_WARNINGS := [("x", [0; 1])];
         logged := []; printed := [] |} =
    (Return tt,
     set_logged (fun lg => lg ++ msgs)
       {| heap := [mkDeferredWarning "x" (fun p => p) false false (Some "a");
                   mkDeferredWarning "x" (fun p => p) false false (Some "b")];
          DEFERRED_WARNINGS := [("x", [0; 1])];
          logged := []; printed := [] |}) /\
    Forall2 (fun l msg =>
               exists d,
                 [mkDeferredWarning "x" (fun p => p) false false (Some "a");
                  mkDeferredWarning "x" (fun p => p) false false (Some "b")]
                   !! l = Some d /\ message d = Some msg) [0; 1] msgs.
Proof.
  apply (invoke_logs_each_unsatisfied
           {| heap := [mkDeferredWarning "x" (fun p => p) false false (Some "a");
                       mkDeferredWarning "x" (fun p => p) false false (Some "b")];
              DEFERRED_WARNINGS := [("x", [0; 1])];
              logged := []; printed := [] |} "x" [0; 1]).
  - reflexivity.
  - intros l Hl. apply list_elem_of_lookup in Hl as [i Hi].
    destruct i as [|[|i]]; simpl in Hi; try done; injection Hi as <-;
      eexists; (split; [reflexivity|]);
      (split_and!; [reflexivity | reflexivity | by eexists]).
Defined.

(** X2. [invoke(key)] only reads the store and the registry: however it
    ends, the objects, the registry and the standard output are as before,
    and the log has only been extended. *)
Theorem invoke_read_only (key : string) (w : World) (o : outcome unit)
  (w' : World) :
  invoke key w = (o, w') ->
  heap w' = heap w /\ DEFERRED_WARNINGS w' = DEFERRED_WARNINGS w /\
  printed w' = printed w /\ exists msgs, logged w' = logged w ++ msgs.
Proof.
  rewrite invoke_as_run.
  destruct (dict_contains (DEFERRED_WARNINGS w) key); intros [= _ <-].
  - split_and!; try done. by eexists.
  - split_and!; try done. exists []. by rewrite app_nil_r.
Qed.

Lemma invoke_read_only_witness :
  heap (set_logged (fun lg => lg ++ ["a"]) example_world) = heap example_world /\
  DEFERRED_WARNINGS (set_logged (fun lg => lg ++ ["a"]) example_world) =
    DEFERRED_WARNINGS example_world /\
  printed (set_logged (fun lg => lg ++ ["a"]) example_world) =
    printed example_world /\
  exists msgs, logged (set_logged (fun lg => lg ++ ["a"]) example_world) =
               logged example_world ++ msgs.
Proof.
  apply (invoke_read_only "x" example_world
           (Raise (ConditionalParameterError "b"))).
  reflexivity.
Defined.

(** X3. [invoke] is repeatable: a second [invoke(key)] ends the way the
    first did and logs the same messages once more. *)
Theorem invoke_repeatable (key : string) (w : World) (o : outcome unit)
  (w' : World) :
  invoke key w = (o, w') ->
  exists msgs,
    w' = set_logged (fun lg => lg ++ msgs) w /\
    invoke key w' = (o, set_logged (fun lg => lg ++ msgs ++ msgs) w).
Proof.
  rewrite invoke_as_run. intros Hfirst. rewrite invoke_as_run.
  destruct (dict_contains (DEFERRED_WARNINGS w) key) eqn:Hkey;
    injection Hfirst as <- <-; simpl; rewrite Hkey.
  - eexists. split; [reflexivity|]. by rewrite set_logged_app.
  - exists []. simpl. by rewrite set_logged_nil.
Qed.

Lemma invoke_repeatable_witness :
  exists msgs,
    set_logged (fun lg => lg ++ ["a"]) example_world =
      set_logged (fun lg => lg ++ msgs) example_world /\
    invoke "x" (set_logged (fun lg => lg ++ ["a"]) example_world) =
      (Raise (ConditionalParameterError "b"),
       set_logged (fun lg => lg ++ msgs ++ msgs) example_world).
Proof.
  apply (invoke_repeatable "x" example_world
           (Raise (ConditionalParameterError "b"))).
  reflexivity.
Defined.

(** ** What [satisfy] changes *)

Lemma satisfy_declared_effect (w : World) (c : string) (ls : list loc) :
  wf w -> dict_get (DEFERRED_WARNINGS w) c = Some ls ->
  exists w',
    satisfy c w = (Return tt, w') /\
    DEFERRED_WARNINGS w' = DEFERRED_WARNINGS w /\
    logged w' = logged w /\ printed w' = printed w /\
    length (heap w') = length (heap w) /\
    forall l d, heap w !! l = Some d ->
      heap w' !! l =
      Some (if bool_decide (l ∈ ls) then set_satisfied true d else d).
Proof.
  intros Hwf Hls. destruct (Hwf c ls Hls) as [_ Hreg].
  exists (set_heap (satisfy_all ls) w). split_and!; try done.
  - rewrite (satisfy_declared w c ls Hls). apply for_each_satisfy.
    intros l Hl. destruct (Hreg l Hl) as (d & Hd & _). by exists d.
  - simpl. apply satisfy_all_length.
  - intros l d Hd. simpl. by rewrite satisfy_all_lookup, Hd.
Qed.

(** X4. In a well-formed world [satisfy(c)] on a declared condition returns,
    sets the [satisfied] flag of exactly the warnings registered under [c]
    and changes nothing else: no other attribute, no other object, not the
    registry, the log or the standard output. *)
Theorem satisfy_marks_exactly (w : World) (c : string) (ls : list loc) :
  wf w -> dict_get (DEFERRED_WARNINGS w) c = Some ls ->
  exists w',
    satisfy c w = (Return tt, w') /\
    DEFERRED_WARNINGS w' = DEFERRED_WARNINGS w /\
    logged w' = logged w /\ printed w' = printed w /\
    length (heap w') = length (heap w) /\
    forall l d, heap w !! l = Some d ->
      heap w' !! l =
      Some (if bool_decide (l ∈ ls) then set_satisfied true d else d).
Proof. apply satisfy_declared_effect. Qed.

Lemma satisfy_marks_exactly_witness :
  exists w',
    satisfy "x" example_world = (Return tt, w') /\
    DEFERRED_WARNINGS w' = DEFERRED_WARNINGS example_world /\
    logged w' = logged example_world /\ printed w' = printed example_world /\
    length (heap w') = length (heap example_world) /\
    forall l d, heap example_world !! l = Some d ->
      heap w' !! l =
      Some (if bool_decide (l ∈ [0; 1; 2]) then set_satisfied true d else d).
Proof.
  apply (satisfy_marks_exactly example_world "x" [0; 1; 2]).
  - exact example_world_wf.
  - reflexivity.
Defined.

(** X5. Satisfying one condition does not silence another: in a well-formed
    world, after [satisfy(c)], [invoke(k)] for any other key [k] ends as it
    would have before and logs the same messages. *)
Theorem satisfy_keeps_other_conditions (w : World) (c k : string)
  (o : outcome unit) (w' : World) :
  wf w -> c ∈ dict_keys (DEFERRED_WARNINGS w) -> k <> c ->
  satisfy c w = (o, w') ->
  exists ok msgs,
    invoke k w = (ok, set_logged (fun lg => lg ++ msgs) w) /\
    invoke k w' = (ok, set_logged (fun lg => lg ++ msgs) w').
Proof.
  intros Hwf [ls Hls]%dict_keys_get Hne Hsat.
  destruct (satisfy_declared_effect w c ls Hwf Hls)
    as (w1 & Hsat1 & Hreg1 & _ & _ & _ & Hheap).
  assert (w1 = w') as -> by congruence. clear Hsat Hsat1.
  rewrite !invoke_as_run, Hreg1.
  destruct (dict_contains (DEFERRED_WARNINGS w) k) eqn:Hk.
  - do 2 eexists. split; [reflexivity|].
    rewrite (invoke_run_ext (heap w) (heap w')); [done|].
    intros l Hl. unfold dict_item in Hl.
    destruct (dict_get (DEFERRED_WARNINGS w) k) as [lk|] eqn:Hlk;
      [|by apply elem_of_nil in Hl].
    destruct (Hwf k lk Hlk) as [_ Hregk].
    destruct (Hregk l Hl) as (d & Hd & Hcond & _).
    rewrite (Hheap l d Hd), Hd. rewrite bool_decide_eq_false_2; [done|].
    intros Hin. destruct (Hwf c ls Hls) as [_ Hregc].
    destruct (Hregc l Hin) as (d' & Hd' & Hcond' & _). congruence.
  - exists (Raise (invoke_KeyError k)), []. by rewrite !set_logged_nil.
Qed.

Lemma two_key_world_wf : wf two_key_world.
Proof.
  intros key ls Hget. simpl in Hget.
  destruct (decide ("x" = key)) as [<-|];
    [|destruct (decide ("y" = key)) as [<-|]; [|done]];
    injection Hget as <-; (split; [done|]);
    intros l ->%list_elem_of_singleton; eexists;
    (split; [reflexivity|]); (split; [reflexivity | by eexists]).
Qed.

Lemma satisfy_keeps_other_conditions_witness :
  (exists ok msgs,
     invoke "y" two_key_world =
       (ok, set_logged (fun lg => lg ++ msgs) two_key_world) /\
     invoke "y" (set_heap (satisfy_all [0]) two_key_world) =
       (ok, set_logged (fun lg => lg ++ msgs)
              (set_heap (satisfy_all [0]) two_key_world))) /\
  satisfy "x" two_key_world =
    (Return tt, set_heap (satisfy_all [0]) two_key_world) /\
  invoke "y" two_key_world =
    (Return tt, set_logged (fun lg => lg ++ ["b"]) two_key_world) /\
  invoke "y" (set_heap (satisfy_all [0]) two_key_world) =
    (Return tt, set_logged (fun lg => lg ++ ["b"])
                  (set_heap (satisfy_all [0]) two_key_world)).
Proof.
  split; [|split_and!; reflexivity].
  apply (satisfy_keeps_other_conditions two_key_world "x" "y" (Return tt)).
  - exact two_key_world_wf.
  - simpl. apply list_elem_of_here.
  - discriminate.
  - reflexivity.
Defined.

(** ** [invoke_all] *)

Lemma invoke_run_outcome (h : list DeferredWarning) (ls : list loc) :
  (invoke_run h ls).2 = Return tt \/
  (exists l, (invoke_run h ls).2 = Raise (InvalidReference l)) \/
  (invoke_run h ls).2 = Raise (ValueError "didn't supply parameter!") \/
  (exists msg, (invoke_run h ls).2 = Raise (ConditionalParameterError msg)).
Proof.
  induction ls as [|l ls IH]; simpl; [by left|].
  destruct (h !! l) as [d|]; [|right; left; by eexists].
  destruct (satisfied d); [done|].
  destruct (message d) as [msg|]; [|right; right; by left].
  destruct (error d); [right; right; right; by eexists | done].
Qed.

Lemma for_each_invoke_keys (keys : list string) (w : World) :
  (forall key, key ∈ keys -> key ∈ dict_keys (DEFERRED_WARNINGS w)) ->
  for_each keys invoke w =
  ((invoke_keys_run (heap w) (DEFERRED_WARNINGS w) keys).2,
   set_logged
     (fun lg => lg ++ (invoke_keys_run (heap w) (DEFERRED_WARNINGS w) keys).1)
     w).
Proof.
  revert w. induction keys as [|key keys IH]; intros w Hsub; simpl.
  - unfold ret. by rewrite set_logged_nil.
  - unfold bind. rewrite invoke_as_run.
    assert (dict_contains (DEFERRED_WARNINGS w) key = true) as ->.
    { destruct (dict_contains (DEFERRED_WARNINGS w) key) eqn:Hc; [done|].
      apply dict_contains_false in Hc. destruct Hc.
      apply Hsub, list_elem_of_here. }
    destruct (invoke_run (heap w) (dict_item (DEFERRED_WARNINGS w) key)).2
      as [[]|e]; [|done].
    rewrite IH.
    + simpl. by rewrite set_logged_app.
    + intros key' Hkey'. simpl. apply Hsub. by apply list_elem_of_further.
Qed.

Lemma invoke_all_as_run (w : World) :
  invoke_all w =
  ((invoke_keys_run (heap w) (DEFERRED_WARNINGS w)
      (dict_keys (DEFERRED_WARNINGS w))).2,
   set_logged
     (fun lg => lg ++ (invoke_keys_run (heap w) (DEFERRED_WARNINGS w)
                         (dict_keys (DEFERRED_WARNINGS w))).1) w).
Proof.
  unfold invoke_all, bind, read_DEFERRED_WARNINGS. simpl.
  by apply for_each_invoke_keys.
Qed.

Lemma invoke_keys_run_outcome (h : list DeferredWarning) (d : dict)
  (keys : list string) :
  (invoke_keys_run h d keys).2 = Return tt \/
  (exists l, (invoke_keys_run h d keys).2 = Raise (InvalidReference l)) \/
  (invoke_keys_run h d keys).2 = Raise (ValueError "didn't supply parameter!") \/
  (exists msg,
     (invoke_keys_run h d keys).2 = Raise (ConditionalParameterError msg)).
Proof.
  induction keys as [|key keys IH]; simpl; [by left|].
  destruct (invoke_run_outcome h (dict_item d key))
    as [Hr|[[l Hr]|[Hr|[msg Hr]]]]; rewrite Hr; simpl.
  - exact IH.
  - right; left; by eexists.
  - right; right; by left.
  - right; right; right; by eexists.
Qed.

(** X6. [invoke_all] never raises [KeyError]: the keys it invokes are those
    of the registry, whatever the world. *)
Theorem invoke_all_never_KeyError (w : World) :
  is_KeyError (invoke_all w).1 = false.
Proof.
  rewrite invoke_all_as_run. simpl.
  destruct (invoke_keys_run_outcome (heap w) (DEFERRED_WARNINGS w)
              (dict_keys (DEFERRED_WARNINGS w)))
    as [Hr|[[l Hr]|[Hr|[m Hr]]]]; by rewrite Hr.
Qed.

Lemma invoke_run_armed (h : list DeferredWarning) (ls : list loc) :
  (forall l, l ∈ ls -> exists d, h !! l = Some d /\ is_Some (message d)) ->
  (invoke_run h ls).2 = Return tt \/
  exists msg, (invoke_run h ls).2 = Raise (ConditionalParameterError msg).
Proof.
  induction ls as [|l ls IH]; intros Hall; simpl; [by left|].
  destruct (Hall l) as (d & Hd & [msg Hm]); [apply list_elem_of_here|].
  rewrite Hd, Hm.
  assert (IH' := IH (fun l' Hl' => Hall l' (list_elem_of_further _ _ _ Hl'))).
  destruct (satisfied d); [done|].
  destruct (error d); [right; by eexists | done].
Qed.

Lemma invoke_keys_run_armed (h : list DeferredWarning) (d : dict)
  (keys : list string) :
  (forall key l, l ∈ dict_item d key ->
     exists dw, h !! l = Some dw /\ is_Some (message dw)) ->
  (invoke_keys_run h d keys).2 = Return tt \/
  exists msg,
    (invoke_keys_run h d keys).2 = Raise (ConditionalParameterError msg).
Proof.
  intros Hall. induction keys as [|key keys IH]; simpl; [by left|].
  destruct (invoke_run_armed h (dict_item d key) (Hall key)) as [Hr|[msg Hr]];
    rewrite Hr; simpl; [exact IH | right; by eexists].
Qed.

(** X7. In a well-formed world [invoke_all] either returns or raises the
    [ConditionalParameterError] of a registered warning: it never raises
    [KeyError] or the [ValueError] of an unarmed warning. *)
Theorem invoke_all_wf_outcome (w : World) :
  wf w ->
  exists w', invoke_all w = (Return tt, w') \/
             exists msg,
               invoke_all w = (Raise (ConditionalParameterError msg), w').
Proof.
  intros Hwf. rewrite invoke_all_as_run. eexists.
  destruct (invoke_keys_run_armed (heap w) (DEFERRED_WARNINGS w)
              (dict_keys (DEFERRED_WARNINGS w))) as [Hr|[msg Hr]].
  - intros key l Hl. unfold dict_item in Hl.
    destruct (dict_get (DEFERRED_WARNINGS w) key) as [ls|] eqn:Hls;
      [|by apply elem_of_nil in Hl].
    destruct (Hwf key ls Hls) as [_ Hreg].
    destruct (Hreg l Hl) as (dw & ? & _ & ?). by eauto.
  - rewrite Hr. by left.
  - rewrite Hr. right. by eexists.
Qed.

Lemma invoke_all_wf_outcome_witness :
  exists w', invoke_all example_world = (Return tt, w') \/
             exists msg,
               invoke_all example_world =
               (Raise (ConditionalParameterError msg), w').
Proof.
  apply (invoke_all_wf_outcome example_world). exact example_world_wf.
Defined.

(** X8. When every registered warning is satisfied, [invoke_all] returns and
    leaves the world, hence the log, as it was. *)
Theorem invoke_all_silent_when_satisfied (w : World) :
  (forall key ls l, dict_get (DEFERRED_WARNINGS w) key = Some ls -> l ∈ ls ->
     exists d, heap w !! l = Some d /\ satisfied d = true) ->
  invoke_all w = (Return tt, w).
Proof.
  intros Hall. unfold invoke_all, bind, read_DEFERRED_WARNINGS. simpl.
  apply for_each_unchanged. intros key [ls Hls]%dict_keys_get.
  rewrite (invoke_declared w key ls Hls). apply for_each_unchanged.
  intros l Hl. destruct (Hall key ls l Hls Hl) as (d & Hd & Hs).
  by apply (DeferredWarning_invoke_satisfied w l d).
Qed.

Lemma invoke_all_silent_when_satisfied_witness :
  invoke_all (set_heap (satisfy_all [0; 1; 2]) example_world) =
  (Return tt, set_heap (satisfy_all [0; 1; 2]) example_world).
Proof.
  apply (invoke_all_silent_when_satisfied
           (set_heap (satisfy_all [0; 1; 2]) example_world)).
  intros key ls l Hget Hl. simpl in Hget.
  destruct (decide ("x" = key)) as [<-|]; [|done].
  injection Hget as <-. apply list_elem_of_lookup in Hl as [i Hi].
  destruct i as [|[|[|i]]]; simpl in Hi; try done;
    injection Hi as <-; eexists; (split; reflexivity).
Defined.

Lemma invoke_keys_run_abort (h : list DeferredWarning) (d : dict)
  (ks1 ks2 : list string) (k : string) (e : exn) :
  (forall k', k' ∈ ks1 -> (invoke_run h (dict_item d k')).2 = Return tt) ->
  (invoke_run h (dict_item d k)).2 = Raise e ->
  invoke_keys_run h d (ks1 ++ k :: ks2) =
  (concat ((fun k' => (invoke_run h (dict_item d k')).1) <$> ks1) ++
     (invoke_run h (dict_item d k)).1,
   Raise e).
Proof.
  intros Hks1 Hk. induction ks1 as [|k1 ks1 IH]; simpl.
  - by rewrite Hk.
  - rewrite Hks1 by apply list_elem_of_here. rewrite IH.
    + simpl. by rewrite app_assoc.
    + intros k' Hk'. apply Hks1. by apply list_elem_of_further.
Qed.

(** X9. [invoke_all] goes through the keys in insertion order and stops at
    the first key whose [invoke] raises: the messages of the keys before it
    and of that key are logged, in order, its exception is raised, and the
    keys after it are not invoked. *)
Theorem invoke_all_aborts_at_first_error (w : World) (ks1 ks2 : list string)
  (k : string) (e : exn) :
  dict_keys (DEFERRED_WARNINGS w) = ks1 ++ k :: ks2 ->
  (forall k', k' ∈ ks1 -> (invoke k' w).1 = Return tt) ->
  (invoke k w).1 = Raise e ->
  invoke_all w =
  (Raise e,
   set_logged
     (fun lg => lg ++ concat (invoke_messages w <$> ks1) ++ invoke_messages w k)
     w).
Proof.
  intros Hkeys Hks1 Hk.
  assert (Hin : forall k', k' ∈ ks1 ++ k :: ks2 ->
            dict_contains (DEFERRED_WARNINGS w) k' = true).
  { intros k' Hk'. rewrite <- Hkeys in Hk'.
    destruct (dict_contains (DEFERRED_WARNINGS w) k') eqn:Hc; [done|].
    by apply dict_contains_false in Hc. }
  rewrite invoke_all_as_run, Hkeys.
  rewrite (invoke_keys_run_abort _ _ ks1 ks2 k e); [done | |].
  - intros k' Hk'. specialize (Hks1 k' Hk').
    rewrite invoke_as_run, Hin in Hks1; [done|].
    apply elem_of_app. by left.
  - rewrite invoke_as_run, Hin in Hk; [done|].
    apply elem_of_app. right. apply list_elem_of_here.
Qed.

Lemma invoke_all_aborts_at_first_error_witness :
  invoke_all
    {| heap := [mkDeferredWarning "x" (fun p => p) false false (Some "a");
                mkDeferredWarning "y" (fun p => p) false true (Some "b");
                mkDeferredWarning "z" (fun p => p) false true (Some "c")];
       DEFERRED_WARNINGS := [("x", [0]); ("y", [1]); ("z", [2])];
       logged := []; printed := [] |} =
  (Raise (ConditionalParameterError "b"),
   {| heap := [mkDeferredWarning "x" (fun p => p) false false (Some "a");
               mkDeferredWarning "y" (fun p => p) false true (Some "b");
               mkDeferredWarning "z" (fun p => p) false true (Some "c")];
      DEFERRED_WARNINGS := [("x", [0]); ("y", [1]); ("z", [2])];
      logged := ["a"]; printed := [] |}).
Proof.
  apply (invoke_all_aborts_at_first_error
           {| heap := [mkDeferredWarning "x" (fun p => p) false false (Some "a");
                       mkDeferredWarning "y" (fun p => p) false true (Some "b");
                       mkDeferredWarning "z" (fun p => p) false true (Some "c")];
              DEFERRED_WARNINGS := [("x", [0]); ("y", [1]); ("z", [2])];
              logged := []; printed := [] |}
           ["x"] ["z"] "y" (ConditionalParameterError "b")).
  - reflexivity.
  - intros k' ->%list_elem_of_singleton. reflexivity.
  - reflexivity.
Defined.

(** ** What a program can and cannot change *)

Lemma evolves_refl (d : DeferredWarning) : evolves d d.
Proof. by repeat split. Qed.

Lemma evolves_trans (d1 d2 d3 : DeferredWarning) :
  evolves d1 d2 -> evolves d2 d3 -> evolves d1 d3.
Proof.
  intros (Hc1 & Hf1 & He1 & Hs1 & Hm1) (Hc2 & Hf2 & He2 & Hs2 & Hm2).
  repeat split; try congruence; by eauto.
Qed.

Lemma grows_refl (w : World) : grows w w.
Proof.
  split_and!; try done.
  - intros l d Hd. exists d. split; [done | apply evolves_refl].
  - intros key ls Hls. exists []. by rewrite app_nil_r.
Qed.

Lemma grows_trans (w1 w2 w3 : World) :
  grows w1 w2 -> grows w2 w3 -> grows w1 w3.
Proof.
  intros (Hh1 & Hr1 & Hl1 & Hp1) (Hh2 & Hr2 & Hl2 & Hp2). split_and!.
  - intros l d Hd. destruct (Hh1 l d Hd) as (d2 & Hd2 & He2).
    destruct (Hh2 l d2 Hd2) as (d3 & Hd3 & He3).
    exists d3. split; [done | by eapply evolves_trans].
  - intros key ls Hls. destruct (Hr1 key ls Hls) as [ls2 Hls2].
    destruct (Hr2 key _ Hls2) as [ls3 Hls3].
    exists (ls2 ++ ls3). by rewrite app_assoc.
  - by etrans.
  - by etrans.
Qed.

Lemma grows_heap_update (w : World) (l : loc) (d d' : DeferredWarning) :
  heap w !! l = Some d -> evolves d d' ->
  grows w (set_heap (fun h => <[l := d']> h) w).
Proof.
  intros Hd Hev. split_and!; try done.
  - intros l0 d0 Hd0. simpl. destruct (decide (l0 = l)) as [->|Hne].
    + exists d'. rewrite list_lookup_insert_eq by by eapply lookup_lt_Some.
      split; [done | congruence].
    + exists d0. rewrite list_lookup_insert_ne by done.
      split; [done | apply evolves_refl].
  - intros key ls Hls. exists []. by rewrite app_nil_r.
Qed.

Lemma grows_alloc (w : World) (d : DeferredWarning) :
  grows w (set_heap (fun h => h ++ [d]) w).
Proof.
  split_and!; try done.
  - intros l d0 Hd0. exists d0. simpl.
    split; [by apply lookup_app_l_Some | apply evolves_refl].
  - intros key ls Hls. exists []. by rewrite app_nil_r.
Qed.

Lemma grows_logged (w : World) (msgs : list string) :
  grows w (set_logged (fun lg => lg ++ msgs) w).
Proof.
  split_and!; try done.
  - intros l d Hd. exists d. split; [done | apply evolves_refl].
  - intros key ls Hls. exists []. by rewrite app_nil_r.
  - simpl. by apply prefix_app_r.
Qed.

Lemma grows_printed (w : World) (out : list string) :
  grows w (set_printed (fun p => p ++ out) w).
Proof.
  split_and!; try done.
  - intros l d Hd. exists d. split; [done | apply evolves_refl].
  - intros key ls Hls. exists []. by rewrite app_nil_r.
  - simpl. by apply prefix_app_r.
Qed.

Lemma for_each_grows {A} (body : A -> M unit) (xs : list A) :
  (forall x w o w', body x w = (o, w') -> grows w w') ->
  forall w o w', for_each xs body w = (o, w') -> grows w w'.
Proof.
  intros Hbody w o w' Hrun.
  apply (for_each_preserves (grows w) body xs) with (w:=w) (o:=o);
    [|apply grows_refl | done].
  intros x w1 o1 w2 Hw1 Hx. eapply grows_trans; [done|]. by eapply Hbody.
Qed.

Lemma grows_DeferredWarning_satisfy (l : loc) (w : World) (o : outcome unit)
  (w' : World) :
  DeferredWarning.satisfy l w = (o, w') -> grows w w'.
Proof.
  unfold DeferredWarning.satisfy, bind, deref.
  destruct (heap w !! l) as [d|] eqn:Hd; intros [= _ <-];
    [|apply grows_refl].
  apply (grows_heap_update w l d); [done|].
  unfold evolves. simpl. by split_and!.
Qed.

Lemma grows_satisfy (key : string) (w : World) (o : outcome unit)
  (w' : World) :
  satisfy key w = (o, w') -> grows w w'.
Proof.
  unfold satisfy, bind, read_DEFERRED_WARNINGS.
  destruct (dict_contains (DEFERRED_WARNINGS w) key); simpl.
  - apply for_each_grows. apply grows_DeferredWarning_satisfy.
  - intros [= _ <-]. apply grows_refl.
Qed.

Lemma grows_invoke (key : string) (w : World) (o : outcome unit)
  (w' : World) :
  invoke key w = (o, w') -> grows w w'.
Proof.
  rewrite invoke_as_run.
  destruct (dict_contains (DEFERRED_WARNINGS w) key); intros [= _ <-].
  - apply grows_logged.
  - apply grows_refl.
Qed.

Lemma grows_invoke_all (w : World) (o : outcome unit) (w' : World) :
  invoke_all w = (o, w') -> grows w w'.
Proof.
  rewrite invoke_all_as_run. intros [= _ <-]. apply grows_logged.
Qed.

Section Growth.

Context {PyObject Class : Type}.
Variable _process_class :
  Class -> bool -> bool -> bool -> bool -> bool -> bool -> outcome Class.
Variable _FIELDS : Class -> list (string * Field PyObject).

Lemma grows_field (condition : option string) (e : bool)
  (default default_factory : option PyObject) (init repr : bool)
  (hash : option bool) (compare : bool) (metadata : option PyObject)
  (w : World) (o : outcome (WarnedField PyObject)) (w' : World) :
  field condition e default default_factory init repr hash compare
    metadata w = (o, w') ->
  grows w w'.
Proof.
  destruct condition as [c|].
  - rewrite field_with_condition. intros [= _ <-].
    eapply grows_trans; [apply grows_printed | apply grows_alloc].
  - rewrite field_without_condition. intros [= _ <-]. apply grows_refl.
Qed.

Lemma grows_warned_process_class (cls : Class)
  (init repr eq order unsafe_hash frozen : bool) (w : World)
  (o : outcome (option Class)) (w' : World) :
  _warned_process_class _process_class _FIELDS cls
    init repr eq order unsafe_hash frozen w = (o, w') ->
  grows w w'.
Proof. intros ->%hook_leaves_world. apply grows_refl. Qed.

Lemma grows_client_step (w w' : World) :
  client_step _process_class _FIELDS w w' -> grows w w'.
Proof.
  intros [].
  - by eapply grows_field.
  - by eapply grows_warned_process_class.
  - by eapply grows_satisfy.
  - by eapply grows_invoke.
  - by eapply grows_invoke_all.
Qed.

Lemma grows_steps (w w' : World) :
  rtc (client_step _process_class _FIELDS) w w' -> grows w w'.
Proof.
  induction 1 as [|w1 w2 w3 Hstep _ IH]; [apply grows_refl|].
  eapply grows_trans; [by apply grows_client_step | done].
Qed.

(** X10. The registry only grows: whatever calls a program makes, a declared
    key stays declared, and the warnings registered under it stay
    registered, in the same order, with later registrations appended. *)
Theorem registry_only_grows (w w' : World) (key : string) (ls : list loc) :
  rtc (client_step _process_class _FIELDS) w w' ->
  dict_get (DEFERRED_WARNINGS w) key = Some ls ->
  exists ls', dict_get (DEFERRED_WARNINGS w') key = Some (ls ++ ls').
Proof.
  intros Hsteps%grows_steps Hls. destruct Hsteps as (_ & Hreg & _).
  by apply Hreg.
Qed.

(** X11. No call resets a warning: an object of the store stays in the
    store with its condition, its message template and its mode; once
    satisfied it stays satisfied, and once armed it stays armed. *)
Theorem warnings_never_reset (w w' : World) (l : loc) (d : DeferredWarning) :
  rtc (client_step _process_class _FIELDS) w w' ->
  heap w !! l = Some d ->
  exists d',
    heap w' !! l = Some d' /\
    condition d' = condition d /\
    deferred_message d' = deferred_message d /\
    error d' = error d /\
    (satisfied d = true -> satisfied d' = true) /\
    (is_Some (message d) -> is_Some (message d')).
Proof.
  intros Hsteps%grows_steps Hd. destruct Hsteps as (Hheap & _).
  destruct (Hheap l d Hd) as (d' & Hd' & Hev). by exists d'.
Qed.

Lemma registry_empty_client_step (w w' : World) :
  DEFERRED_WARNINGS w = [] ->
  client_step _process_class _FIELDS w w' ->
  DEFERRED_WARNINGS w' = [].
Proof.
  intros Hempty [condition e dflt dfac i r h cmp md o Hrun
                |cls i r eq ord uh fr o Hrun|key o Hrun|key o Hrun|o Hrun].
  - destruct condition as [c|].
    + rewrite field_with_condition in Hrun. by injection Hrun as _ <-.
    + rewrite field_without_condition in Hrun. by injection Hrun as _ <-.
  - by apply hook_leaves_world in Hrun as ->.
  - revert Hrun. unfold satisfy, bind, read_DEFERRED_WARNINGS.
    rewrite Hempty. simpl. by intros [= _ <-].
  - rewrite invoke_as_run in Hrun.
    by destruct (dict_contains (DEFERRED_WARNINGS w) key);
      injection Hrun as _ <-.
  - rewrite invoke_all_as_run in Hrun. by injection Hrun as _ <-.
Qed.

(** X12. Through the functions of the module no condition is ever
    declared: in every world a program can reach the registry is empty, so
    that [satisfy] and [invoke] raise [KeyError] for every key and
    [invoke_all] returns without doing anything. *)
Theorem reachable_registry_empty (w : World) :
  reachable _process_class _FIELDS w ->
  DEFERRED_WARNINGS w = [] /\
  (forall key,
     satisfy key w = (Raise (satisfy_KeyError key), w) /\
     invoke key w = (Raise (invoke_KeyError key), w)) /\
  invoke_all w = (Return tt, w).
Proof.
  intros Hreach.
  assert (Hempty : DEFERRED_WARNINGS w = []).
  { revert w Hreach. unfold reachable. apply rtc_ind_r; [done|].
    intros w1 w2 _ Hstep IH. by eapply registry_empty_client_step. }
  split_and!; [done | |].
  - intros key.
    unfold satisfy, invoke, bind, read_DEFERRED_WARNINGS. by rewrite Hempty.
  - unfold invoke_all, bind, read_DEFERRED_WARNINGS. by rewrite Hempty.
Qed.

End Growth.

Lemma mixed_world_reachable :
  reachable example_process_class example_FIELDS mixed_world.
Proof.
  unfold reachable. apply rtc_once.
  apply (step_field _ _ _ _ (Some "x") false None None true true None true
           None (Return field_a)).
  reflexivity.
Qed.

Lemma registry_only_grows_witness :
  exists ls',
    dict_get (DEFERRED_WARNINGS
                (set_logged (fun lg => lg ++ ["a"]) example_world)) "x" =
    Some ([0; 1; 2] ++ ls').
Proof.
  apply (registry_only_grows example_process_class example_FIELDS
           example_world (set_logged (fun lg => lg ++ ["a"]) example_world)
           "x" [0; 1; 2]).
  - apply rtc_once.
    apply (step_invoke _ _ _ _ "x" (Raise (ConditionalParameterError "b"))).
    reflexivity.
  - reflexivity.
Defined.

Lemma warnings_never_reset_witness :
  exists d',
    heap (set_heap (satisfy_all [0; 1; 2]) example_world) !! 1 = Some d' /\
    condition d' = "x" /\
    deferred_message d' = (fun p => p) /\
    error d' = true /\
    (false = true -> satisfied d' = true) /\
    (is_Some (Some "b") -> is_Some (message d')).
Proof.
  apply (warnings_never_reset example_process_class example_FIELDS
           example_world (set_heap (satisfy_all [0; 1; 2]) example_world) 1
           (mkDeferredWarning "x" (fun p => p) false true (Some "b"))).
  - apply rtc_once. apply (step_satisfy _ _ _ _ "x" (Return tt)).
    reflexivity.
  - reflexivity.
Defined.

Lemma reachable_registry_empty_witness :
  DEFERRED_WARNINGS mixed_world = [] /\
  (forall key,
     satisfy key mixed_world = (Raise (satisfy_KeyError key), mixed_world) /\
     invoke key mixed_world = (Raise (invoke_KeyError key), mixed_world)) /\
  invoke_all mixed_world = (Return tt, mixed_world).
Proof.
  apply (reachable_registry_empty example_process_class example_FIELDS
           mixed_world).
  exact mixed_world_reachable.
Defined.

(** ** The hook, the factory and the registry together *)

(** X13. [supply_parameter] overwrites: calling it a second time leaves the
    warning as a single call with the second parameter would. *)
Theorem supply_parameter_overwrites (w : World) (l : loc)
  (d : DeferredWarning) (n1 n2 : string) :
  heap w !! l = Some d ->
  (let! _ := DeferredWarning.supply_parameter l n1 in
   DeferredWarning.supply_parameter l n2) w =
  DeferredWarning.supply_parameter l n2 w.
Proof.
  intros Hd. unfold bind at 1.
  rewrite (DeferredWarning_supply_parameter_Some w l d n1 Hd).
  rewrite (DeferredWarning_supply_parameter_Some w l d n2 Hd).
  rewrite (DeferredWarning_supply_parameter_Some _ l
             (set_message (Some (deferred_message d n1)) d) n2).
  - unfold set_heap. simpl. by rewrite list_insert_insert_eq.
  - simpl. apply list_lookup_insert_eq. by eapply lookup_lt_Some.
Qed.

Lemma supply_parameter_overwrites_witness :
  (let! _ := DeferredWarning.supply_parameter 0 "a" in
   DeferredWarning.supply_parameter 0 "b") mixed_world =
  DeferredWarning.supply_parameter 0 "b" mixed_world.
Proof.
  apply (supply_parameter_overwrites mixed_world 0
           (mkDeferredWarning "x" (warning_template "x") false false None)).
  reflexivity.
Defined.

Section Together.

Context {PyObject Class : Type}.
Variable _process_class :
  Class -> bool -> bool -> bool -> bool -> bool -> bool -> outcome Class.
Variable _FIELDS : Class -> list (string * Field PyObject).

(** X14. The hook never arms or registers a warning: however
    [_warned_process_class] ends, and whatever the class, it leaves the
    store, the registry, the log and the standard output exactly as they
    were; it returns only for a class without fields. *)
Theorem hook_changes_nothing (cls : Class)
  (init repr eq order unsafe_hash frozen : bool) (w : World)
  (o : outcome (option Class)) (w' : World) :
  _warned_process_class _process_class _FIELDS cls
    init repr eq order unsafe_hash frozen w = (o, w') ->
  w' = w /\
  (o = Return None ->
   exists cls',
     _process_class cls init repr eq order unsafe_hash frozen = Return cls' /\
     _FIELDS cls' = []).
Proof.
  rewrite hook_outcome. intros [= <- <-]. split; [done|].
  destruct (_process_class cls init repr eq order unsafe_hash frozen)
    as [cls'|e]; [|done].
  destruct (_FIELDS cls') eqn:Htable; [by eauto | done].
Qed.

(** X16. [field] registers nothing: it leaves the registry and the log as
    they were, and in a well-formed world [invoke] on any key ends after it
    as it would have before, with the same messages. *)
Theorem field_leaves_invoke_unchanged (condition : option string) (e : bool)
  (default default_factory : option PyObject) (init repr : bool)
  (hash : option bool) (compare : bool) (metadata : option PyObject)
  (w : World) (o : outcome (WarnedField PyObject)) (w' : World) :
  wf w ->
  field condition e default default_factory init repr hash compare
    metadata w = (o, w') ->
  DEFERRED_WARNINGS w' = DEFERRED_WARNINGS w /\ logged w' = logged w /\
  forall key, exists ok msgs,
    invoke key w = (ok, set_logged (fun lg => lg ++ msgs) w) /\
    invoke key w' = (ok, set_logged (fun lg => lg ++ msgs) w').
Proof.
  intros Hwf Hfield.
  assert (Hw' : DEFERRED_WARNINGS w' = DEFERRED_WARNINGS w /\
                logged w' = logged w /\
                forall l d, heap w !! l = Some d -> heap w' !! l = Some d).
  { destruct condition as [c|].
    - rewrite field_with_condition in Hfield. injection Hfield as _ <-.
      split_and!; try done. intros l d Hd. simpl.
      by apply lookup_app_l_Some.
    - rewrite field_without_condition in Hfield. by injection Hfield as _ <-. }
  destruct Hw' as (Hreg & Hlog & Hheap). split_and!; try done.
  intros key. rewrite !invoke_as_run, Hreg.
  destruct (dict_contains (DEFERRED_WARNINGS w) key) eqn:Hk.
  - do 2 eexists. split; [reflexivity|].
    rewrite (invoke_run_ext (heap w) (heap w')); [done|].
    intros l Hl. unfold dict_item in Hl.
    destruct (dict_get (DEFERRED_WARNINGS w) key) as [ls|] eqn:Hls;
      [|by apply elem_of_nil in Hl].
    destruct (Hwf key ls Hls) as [_ Hregk].
    destruct (Hregk l Hl) as (d & Hd & _). rewrite Hd. by apply Hheap.
  - exists (Raise (invoke_KeyError key)), []. by rewrite !set_logged_nil.
Qed.

End Together.

Lemma hook_changes_nothing_witness :
  job_world = job_world /\
  ((Raise str_AttributeError : outcome (option ExampleClass)) = Return None ->
   exists cls',
     example_process_class Job true true true false false false = Return cls' /\
     example_FIELDS cls' = []).
Proof.
  apply (hook_changes_nothing example_process_class example_FIELDS Job
           true true true false false false job_world
           (Raise str_AttributeError) job_world).
  reflexivity.
Defined.

Lemma field_leaves_invoke_unchanged_witness :
  DEFERRED_WARNINGS
    (set_heap (fun h => h ++ [mkDeferredWarning "y" (warning_template "y")
                                false false None])
       (set_printed (fun out => out ++ ["initialized"]) example_world)) =
    DEFERRED_WARNINGS example_world /\
  logged
    (set_heap (fun h => h ++ [mkDeferredWarning "y" (warning_template "y")
                                false false None])
       (set_printed (fun out => out ++ ["initialized"]) example_world)) =
    logged example_world /\
  forall key, exists ok msgs,
    invoke key example_world =
      (ok, set_logged (fun lg => lg ++ msgs) example_world) /\
    invoke key
      (set_heap (fun h => h ++ [mkDeferredWarning "y" (warning_template "y")
                                  false false None])
         (set_printed (fun out => out ++ ["initialized"]) example_world)) =
      (ok, set_logged (fun lg => lg ++ msgs)
             (set_heap (fun h => h ++ [mkDeferredWarning "y"
                                         (warning_template "y") false false
                                         None])
                (set_printed (fun out => out ++ ["initialized"])
                   example_world))).
Proof.
  apply (field_leaves_invoke_unchanged (PyObject:=unit) (Some "y") false
           None None true true None true None example_world
           (Return (mkWarnedField unit (Some 3) None None true true None true
                      None))).
  - exact example_world_wf.
  - reflexivity.
Defined.

(** ** The standard output *)

Lemma printed_per_warning_update (w : World) (l : loc) (d : DeferredWarning) :
  printed_per_warning w ->
  printed_per_warning (set_heap (fun h => <[l := d]> h) w).
Proof. unfold printed_per_warning. simpl. by rewrite length_insert. Qed.

Lemma printed_DeferredWarning_satisfy (l : loc) (w : World)
  (o : outcome unit) (w' : World) :
  printed_per_warning w -> DeferredWarning.satisfy l w = (o, w') ->
  printed_per_warning w'.
Proof.
  intros Hp. unfold DeferredWarning.satisfy, bind, deref.
  destruct (heap w !! l) as [d|]; intros [= _ <-]; [|done].
  by apply printed_per_warning_update.
Qed.

Section Output.

Context {PyObject Class : Type}.
Variable _process_class :
  Class -> bool -> bool -> bool -> bool -> bool -> bool -> outcome Class.
Variable _FIELDS : Class -> list (string * Field PyObject).

(** X18. [field] creates the warning, and prints, before it looks at the
    defaults: called with a condition and with both [default] and
    [default_factory], it raises, yet one more object is in the store and
    one more line is on the standard output; the registry is untouched. *)
Theorem field_raises_after_creating (c : string) (e : bool)
  (dflt dfac : PyObject) (init repr : bool) (hash : option bool)
  (compare : bool) (metadata : option PyObject) (w : World) :
  exists w',
    field (Some c) e (Some dflt) (Some dfac) init repr hash compare
      metadata w =
    (Raise (ValueError "cannot specify both default and default_factory"), w')
    /\ heap w' = heap w ++ [mkDeferredWarning c (warning_template c) false e None]
    /\ printed w' = printed w ++ ["initialized"]
    /\ DEFERRED_WARNINGS w' = DEFERRED_WARNINGS w /\ logged w' = logged w.
Proof. eexists. by rewrite field_with_condition. Qed.

Lemma printed_client_step (w w' : World) :
  printed_per_warning w -> client_step _process_class _FIELDS w w' ->
  printed_per_warning w'.
Proof.
  intros Hp [condition e dflt dfac i r h cmp md o Hrun
            |cls i r eq ord uh fr o Hrun|key o Hrun|key o Hrun|o Hrun].
  - destruct condition as [c|].
    + rewrite field_with_condition in Hrun. injection Hrun as _ <-.
      unfold printed_per_warning in *. simpl.
      by rewrite length_app, Nat.add_1_r, replicate_S_end, Hp.
    + rewrite field_without_condition in Hrun. by injection Hrun as _ <-.
  - by apply hook_leaves_world in Hrun as ->.
  - revert Hrun. unfold satisfy, bind, read_DEFERRED_WARNINGS.
    destruct (dict_contains (DEFERRED_WARNINGS w) key); simpl.
    + by apply (for_each_preserves printed_per_warning _ _
                  printed_DeferredWarning_satisfy).
    + by intros [= _ <-].
  - rewrite invoke_as_run in Hrun.
    by destruct (dict_contains (DEFERRED_WARNINGS w) key);
      injection Hrun as _ <-.
  - rewrite invoke_all_as_run in Hrun. by injection Hrun as _ <-.
Qed.

(** X19. In every world a program can reach, the standard output holds
    exactly one line ["initialized"] per warning ever created: creating a
    [DeferredWarning] prints, and nothing else does. *)
Theorem reachable_printed (w : World) :
  reachable _process_class _FIELDS w ->
  printed w = replicate (length (heap w)) "initialized".
Proof.
  unfold reachable. revert w. apply rtc_ind_r; [done|].
  intros w1 w2 _ Hstep IH. by eapply printed_client_step.
Qed.

End Output.

Lemma reachable_printed_witness :
  printed mixed_world = replicate (length (heap mixed_world)) "initialized".
Proof.
  apply (reachable_printed example_process_class example_FIELDS mixed_world).
  exact mixed_world_reachable.
Defined.
